(** * redact-verify: denylist matching, corpus aggregation, the verify
      orchestrator, the report summary and the command line, embedded from
      [src/denylist.py], [src/extractors.py], [src/core.py], [src/report.py]
      and [src/cli.py].

    Python [str] values are modelled as [string]; a character is a code point
    below 256 (the Latin-1 range), which is what [ascii] can hold.  The [re]
    module is modelled by a backtracking matcher over a regex syntax tree and
    a compiler for the part of the pattern syntax the sources use. *)

From Stdlib Require Import Ascii String List ZArith Lia Bool.
From stdpp Require Import base gmap sets list strings sorting.

(** ** Python string primitives *)
Module Py.

Definition code (c : ascii) : nat := nat_of_ascii c.

Definition in_range (lo hi : nat) (c : ascii) : bool :=
  (lo <=? code c) && (code c <=? hi).

(** [str.isspace] on one character: U+0009..U+000D, U+001C..U+0020, U+0085
    and U+00A0 are the white-space code points below 256. *)
Definition isspace (c : ascii) : bool :=
  in_range 9 13 c || in_range 28 32 c || (code c =? 133) || (code c =? 160).

Definition isupper (c : ascii) : bool :=
  in_range 65 90 c || (in_range 192 222 c && negb (code c =? 215)).

Definition islower_cased (c : ascii) : bool :=
  in_range 97 122 c || (in_range 224 254 c && negb (code c =? 247)).

Definition lower_char (c : ascii) : ascii :=
  if isupper c then ascii_of_nat (code c + 32) else c.

(** The upper-case partner inside the Latin-1 range, when there is one. *)
Definition upper_char (c : ascii) : ascii :=
  if islower_cased c then ascii_of_nat (code c - 32) else c.

Definition isdigit (c : ascii) : bool := in_range 48 57 c.

(** [str.isalpha] on one character. *)
Definition isalpha (c : ascii) : bool :=
  in_range 65 90 c || in_range 97 122 c
  || (code c =? 170) || (code c =? 181) || (code c =? 186)
  || in_range 192 214 c || in_range 216 246 c || in_range 248 255 c.

(** What [\w] accepts for a [str] pattern: alphanumerics and the underscore. *)
Definition isword (c : ascii) : bool :=
  isalpha c || isdigit c || (code c =? 95)
  || (code c =? 178) || (code c =? 179) || (code c =? 185) || in_range 188 190 c.

(** [s.lower()]; on code points below 256 lowering works one character at a
    time. *)
Fixpoint lower (s : string) : string :=
  match s with
  | EmptyString => EmptyString
  | String c s' => String (lower_char c) (lower s')
  end.

Fixpoint lstrip (s : string) : string :=
  match s with
  | EmptyString => EmptyString
  | String c s' => if isspace c then lstrip s' else s
  end.

Fixpoint rstrip (s : string) : string :=
  match s with
  | EmptyString => EmptyString
  | String c s' =>
      match rstrip s' with
      | EmptyString => if isspace c then EmptyString else String c EmptyString
      | t => String c t
      end
  end.

(** [s.strip()] *)
Definition strip (s : string) : string := rstrip (lstrip s).

(** Truthiness of a [str]: non-empty. *)
Definition truthy (s : string) : bool :=
  match s with EmptyString => false | _ => true end.

Fixpoint drop (n : nat) (s : string) : string :=
  match n, s with
  | S n', String _ s' => drop n' s'
  | _, _ => s
  end.

Fixpoint take (n : nat) (s : string) : string :=
  match n, s with
  | S n', String c s' => String c (take n' s')
  | _, _ => EmptyString
  end.

(** [s.startswith(p)] *)
Definition startswith (p s : string) : bool := String.prefix p s.

(** [sub in s] *)
Fixpoint contains (sub s : string) : bool :=
  String.prefix sub s
  || match s with
     | EmptyString => false
     | String _ s' => contains sub s'
     end.

(** [s.replace(old, new)] for a non-empty [old]: occurrences are replaced
    from the left and do not overlap.  [skip] counts the characters of an
    occurrence that are still to be dropped. *)
Fixpoint replace_from (old new : string) (skip : nat) (s : string) : string :=
  match s with
  | EmptyString => EmptyString
  | String c s' =>
      match skip with
      | S k => replace_from old new k s'
      | O =>
          if String.prefix old s
          then new +:+ replace_from old new (String.length old - 1) s'
          else String c (replace_from old new 0 s')
      end
  end.

Definition replace (old new s : string) : string := replace_from old new 0 s.

(** [sep.join(parts)] *)
Definition join (sep : string) (parts : list string) : string :=
  String.concat sep parts.

(** [str(n)] for a non-negative integer. *)
Definition digit_char (d : nat) : ascii := ascii_of_nat (48 + d).

Fixpoint decimal_aux (fuel n : nat) (acc : string) : string :=
  match fuel with
  | O => acc
  | S fuel' =>
      let acc' := String (digit_char (n mod 10)) acc in
      if n <? 10 then acc' else decimal_aux fuel' (n / 10) acc'
  end.

Definition str_of_nat (n : nat) : string := decimal_aux (S n) n EmptyString.

End Py.

(** ** The regular-expression engine *)
Module Re.

Record flags := { ignorecase : bool; multiline : bool; dotall : bool }.

Definition IGNORECASE : flags :=
  {| ignorecase := true; multiline := false; dotall := false |}.
Definition IGNORECASE_MULTILINE : flags :=
  {| ignorecase := true; multiline := true; dotall := false |}.
Definition DOTALL : flags :=
  {| ignorecase := false; multiline := false; dotall := true |}.
Definition NOFLAGS : flags :=
  {| ignorecase := false; multiline := false; dotall := false |}.

(** Members of a character set. *)
Inductive cset_item : Type :=
  | CChar (c : ascii)
  | CRange (lo hi : ascii)
  | CDigit | CNotDigit
  | CSpace | CNotSpace
  | CWord | CNotWord.

(** Compiled patterns.  [Repeat lo hi r] is the greedy repetition of [r] at
    least [lo] and, when [hi] is given, at most [hi] times. *)
Inductive regex : Type :=
  | Empty
  | Lit (c : ascii)
  | Any
  | CSet (neg : bool) (items : list cset_item)
  | Bol
  | Eol
  | Cat (r1 r2 : regex)
  | Alt (r1 r2 : regex)
  | Repeat (lo : nat) (hi : option nat) (r : regex)
  | Group (i : nat) (r : regex).

(** Does the pattern character [a] accept the text character [c]?  Under
    [IGNORECASE] the engine compares the lower-cased code points; below 256
    no further equivalence applies. *)
Definition lit_eq (fl : flags) (a c : ascii) : bool :=
  if ignorecase fl
  then Ascii.eqb (Py.lower_char a) (Py.lower_char c)
  else Ascii.eqb a c.

Definition range_has (lo hi c : ascii) : bool :=
  Py.in_range (Py.code lo) (Py.code hi) c.

Definition item_matches (fl : flags) (it : cset_item) (c : ascii) : bool :=
  match it with
  | CChar a => lit_eq fl a c
  | CRange lo hi =>
      if ignorecase fl
      then range_has lo hi (Py.lower_char c)
           || range_has lo hi (Py.upper_char (Py.lower_char c))
      else range_has lo hi c
  | CDigit => Py.isdigit c
  | CNotDigit => negb (Py.isdigit c)
  | CSpace => Py.isspace c
  | CNotSpace => negb (Py.isspace c)
  | CWord => Py.isword c
  | CNotWord => negb (Py.isword c)
  end.

Definition cset_matches (fl : flags) (neg : bool) (items : list cset_item)
    (c : ascii) : bool :=
  xorb neg (existsb (fun it => item_matches fl it c) items).

(** Matcher state: the character before the cursor, the text from the cursor
    on, and the groups captured so far (latest first). *)
Record mstate := MState {
  prev : option ascii;
  rest : string;
  caps : list (nat * string)
}.

Definition advance (c : ascii) (s' : string) (st : mstate) : mstate :=
  {| prev := Some c; rest := s'; caps := caps st |}.

(** The text consumed between two states of one match attempt. *)
Definition consumed (st st' : mstate) : string :=
  Py.take (String.length (rest st) - String.length (rest st')) (rest st).

Definition record_group (i : nat) (st st' : mstate) : mstate :=
  {| prev := prev st'; rest := rest st'; caps := (i, consumed st st') :: caps st' |}.

Definition at_bol (fl : flags) (st : mstate) : bool :=
  match prev st with
  | None => true
  | Some c => multiline fl && Ascii.eqb c "010"%char
  end.

Definition at_eol (fl : flags) (st : mstate) : bool :=
  match rest st with
  | EmptyString => true
  | String c EmptyString => Ascii.eqb c "010"%char
  | String c _ => multiline fl && Ascii.eqb c "010"%char
  end.

Definition below (count : nat) (hi : option nat) : bool :=
  match hi with
  | None => true
  | Some h => count <? h
  end.

Definition one_char (st : mstate) (ok : ascii -> bool)
    (k : mstate -> option mstate) : option mstate :=
  match rest st with
  | String c s' => if ok c then k (advance c s' st) else None
  | EmptyString => None
  end.

(** The greedy loop of a repetition.  [body] matches one iteration; [count]
    iterations are done.  One more iteration is tried first; an iteration
    beyond the first [lo] has to consume something.  When no further
    iteration leads to a match the loop is left, provided [lo] is reached. *)
Fixpoint repeat_loop (body : mstate -> (mstate -> option mstate) -> option mstate)
    (lo : nat) (hi : option nat) (k : mstate -> option mstate)
    (fuel count : nat) (st : mstate) {struct fuel} : option mstate :=
  match fuel with
  | O => None
  | S fuel' =>
      let more :=
        if below count hi
        then body st (fun st' =>
               if (count <? lo)
                  || (String.length (rest st') <? String.length (rest st))
               then repeat_loop body lo hi k fuel' (S count) st'
               else None)
        else None in
      match more with
      | Some out => Some out
      | None => if lo <=? count then k st else None
      end
  end.

(** Backtracking match of [r] at the cursor of [st]; [k] is what remains to
    be matched.  Alternatives are tried in priority order: the left branch of
    an alternation first, one more iteration of a repetition first. *)
Fixpoint run (fl : flags) (r : regex) (st : mstate)
    (k : mstate -> option mstate) {struct r} : option mstate :=
  match r with
  | Empty => k st
  | Lit a => one_char st (lit_eq fl a) k
  | Any => one_char st (fun c => dotall fl || negb (Ascii.eqb c "010"%char)) k
  | CSet neg items => one_char st (cset_matches fl neg items) k
  | Bol => if at_bol fl st then k st else None
  | Eol => if at_eol fl st then k st else None
  | Cat r1 r2 => run fl r1 st (fun st' => run fl r2 st' k)
  | Alt r1 r2 =>
      match run fl r1 st k with
      | Some out => Some out
      | None => run fl r2 st k
      end
  | Repeat lo hi r1 =>
      repeat_loop (run fl r1) lo hi k (lo + String.length (rest st) + 1) 0 st
  | Group i r1 => run fl r1 st (fun st' => k (record_group i st st'))
  end.

(** A successful match: the whole matched text, the captured groups, and
    where the text continues after it. *)
Record re_match := ReMatch {
  group0 : string;
  groups : list (nat * string);
  after_prev : option ascii;
  after : string
}.

(** [m.group(i)] for a group that took part in the match. *)
Fixpoint lookup_group (i : nat) (gs : list (nat * string)) : string :=
  match gs with
  | [] => EmptyString
  | (j, s) :: gs' => if i =? j then s else lookup_group i gs'
  end.

Definition group (mt : re_match) (i : nat) : string :=
  match i with
  | O => group0 mt
  | _ => lookup_group i (groups mt)
  end.

Definition match_at (fl : flags) (r : regex) (p : option ascii) (s : string)
    : option re_match :=
  let st := {| prev := p; rest := s; caps := [] |} in
  match run fl r st Some with
  | Some st' =>
      Some {| group0 := consumed st st'; groups := caps st';
              after_prev := prev st'; after := rest st' |}
  | None => None
  end.

(** Leftmost match starting at or after the cursor. *)
Fixpoint search_from (fl : flags) (r : regex) (p : option ascii) (s : string)
    : option re_match :=
  match match_at fl r p s with
  | Some mt => Some mt
  | None =>
      match s with
      | EmptyString => None
      | String c s' => search_from fl r (Some c) s'
      end
  end.

(** A compiled pattern object: the syntax tree with the flags it was
    compiled under. *)
Record pattern := Pattern { tree : regex; pflags : flags }.

(** [p.search(text)] *)
Definition search (p : pattern) (text : string) : option re_match :=
  search_from (pflags p) (tree p) None text.

(** [p.finditer(text)]: the non-overlapping matches from left to right.  After
    an empty match the scan resumes one character further. *)
Fixpoint finditer_from (fuel : nat) (p : pattern) (pv : option ascii) (s : string)
    : list re_match :=
  match fuel with
  | O => []
  | S fuel' =>
      match search_from (pflags p) (tree p) pv s with
      | None => []
      | Some mt =>
          mt :: match group0 mt, after mt with
                | EmptyString, EmptyString => []
                | EmptyString, String c s' => finditer_from fuel' p (Some c) s'
                | _, s' => finditer_from fuel' p (after_prev mt) s'
                end
      end
  end.

Definition finditer (p : pattern) (text : string) : list re_match :=
  finditer_from (S (String.length text)) p None text.

(** *** [re.escape] *)

(** The characters [re.escape] puts a backslash in front of (Python 3.7 and
    later): the punctuation with a meaning in patterns and ASCII white space. *)
Definition special_chars : list ascii :=
  ["("; ")"; "["; "]"; "{"; "}"; "?"; "*"; "+"; "-"; "|"; "^"; "$"; "\"; ".";
   "&"; "~"; "#"; " "; "009"; "010"; "013"; "011"; "012"]%char.

Definition is_special (c : ascii) : bool := existsb (Ascii.eqb c) special_chars.

Fixpoint escape (s : string) : string :=
  match s with
  | EmptyString => EmptyString
  | String c s' =>
      if is_special c
      then String "\"%char (String c (escape s'))
      else String c (escape s')
  end.

(** *** [re.compile]: from pattern text to syntax tree

    The pattern is read one character at a time by a small machine.  Supported
    syntax: literals, [.], [^], [$], backslash escapes of punctuation, the
    classes [\d \D \s \S \w \W], the control escapes [\n \t \r \f \v \a],
    character sets with ranges and negation, capturing and [(?:...)] groups,
    alternation, and the greedy quantifiers [* + ? {m} {m,} {m,n} {,n}].
    Anything else (lazy quantifiers, look-around, back-references, [\b],
    named groups, inline flags) is reported as an error. *)

Record frame := Frame {
  f_group : option nat;       (* capture index; [None] for [(?:...)] and the top level *)
  f_alts : list regex;        (* finished branches, latest first *)
  f_cur : list regex          (* atoms of the current branch, latest first *)
}.

Inductive mode : Type :=
  | MNormal
  | MEscape
  | MParen
  | MParenQ
  | MSetOpen
  | MSet (neg first : bool) (items : list cset_item) (pend : option ascii)
         (dash esc : bool)
  | MBrace (lo : list ascii) (comma : bool) (hi : list ascii).

Record pstate := PState {
  top : frame;
  parents : list frame;
  next_group : nat;
  quantified : bool;
  pmode : mode
}.

Definition seq_of (atoms : list regex) : regex :=
  fold_left (fun acc a => Cat a acc) atoms Empty.

Definition alt_of (alts : list regex) (last : regex) : regex :=
  fold_left (fun acc b => Alt b acc) alts last.

Definition close_frame (f : frame) : regex :=
  let body := alt_of (f_alts f) (seq_of (f_cur f)) in
  match f_group f with
  | Some i => Group i body
  | None => body
  end.

Definition with_mode (md : mode) (st : pstate) : pstate :=
  {| top := top st; parents := parents st; next_group := next_group st;
     quantified := quantified st; pmode := md |}.

Definition push_atom (a : regex) (st : pstate) : pstate :=
  {| top := {| f_group := f_group (top st); f_alts := f_alts (top st);
               f_cur := a :: f_cur (top st) |};
     parents := parents st; next_group := next_group st;
     quantified := false; pmode := MNormal |}.

Definition quantify (lo : nat) (hi : option nat) (st : pstate) : string + pstate :=
  match f_cur (top st) with
  | [] => inl "nothing to repeat"
  | Bol :: _ | Eol :: _ => inl "nothing to repeat"
  | a :: cur' =>
      if quantified st then inl "multiple repeat"
      else inr {| top := {| f_group := f_group (top st); f_alts := f_alts (top st);
                            f_cur := Repeat lo hi a :: cur' |};
                  parents := parents st; next_group := next_group st;
                  quantified := true; pmode := MNormal |}
  end.

Definition new_branch (st : pstate) : pstate :=
  {| top := {| f_group := f_group (top st);
               f_alts := seq_of (f_cur (top st)) :: f_alts (top st);
               f_cur := [] |};
     parents := parents st; next_group := next_group st;
     quantified := false; pmode := MNormal |}.

Definition open_group (capture : bool) (st : pstate) : pstate :=
  {| top := {| f_group := if capture then Some (next_group st) else None;
               f_alts := []; f_cur := [] |};
     parents := top st :: parents st;
     next_group := if capture then S (next_group st) else next_group st;
     quantified := false; pmode := MNormal |}.

Definition close_group (st : pstate) : string + pstate :=
  match parents st with
  | [] => inl "unbalanced parenthesis"
  | f :: fs =>
      inr {| top := {| f_group := f_group f; f_alts := f_alts f;
                       f_cur := close_frame (top st) :: f_cur f |};
             parents := fs; next_group := next_group st;
             quantified := false; pmode := MNormal |}
  end.

(** What [x] stands for after a backslash: a class, a character, or nothing
    this model supports. *)
Inductive escaped : Type :=
  | EClass (it : cset_item)
  | EChar (c : ascii)
  | EBad.

Definition decode_escape (x : ascii) : escaped :=
  match x with
  | "d" => EClass CDigit | "D" => EClass CNotDigit
  | "s" => EClass CSpace | "S" => EClass CNotSpace
  | "w" => EClass CWord | "W" => EClass CNotWord
  | "n" => EChar "010" | "t" => EChar "009" | "r" => EChar "013"
  | "f" => EChar "012" | "v" => EChar "011" | "a" => EChar "007"
  | _ =>
      if Py.isdigit x || Py.in_range 65 90 x || Py.in_range 97 122 x
      then EBad else EChar x
  end%char.

Fixpoint nat_of_digits (ds : list ascii) (acc : nat) : nat :=
  match ds with
  | [] => acc
  | d :: ds' => nat_of_digits ds' (10 * acc + (Py.code d - 48))
  end.

Definition step_normal (st : pstate) (c : ascii) : string + pstate :=
  match c with
  | "\" => inr (with_mode MEscape st)
  | "[" => inr (with_mode MSetOpen st)
  | "(" => inr (with_mode MParen st)
  | ")" => close_group st
  | "|" => inr (new_branch st)
  | "*" => quantify 0 None st
  | "+" => quantify 1 None st
  | "?" => if quantified st then inl "lazy quantifiers are not supported"%string
           else quantify 0 (Some 1) st
  | "{" => inr (with_mode (MBrace [] false []) st)
  | "." => inr (push_atom Any st)
  | "^" => inr (push_atom Bol st)
  | "$" => inr (push_atom Eol st)
  | _ => inr (push_atom (Lit c) st)
  end%char.

Definition step_escape (st : pstate) (x : ascii) : string + pstate :=
  match decode_escape x with
  | EClass it => inr (push_atom (CSet false [it]) st)
  | EChar c => inr (push_atom (Lit c) st)
  | EBad => inl (String.append "bad escape \" (String x EmptyString))
  end.

(** One more member character inside a set. *)
Definition set_feed (neg : bool) (items : list cset_item) (pend : option ascii)
    (dash : bool) (c : ascii) : string + mode :=
  match pend, dash with
  | Some lo, true =>
      if Py.code c <? Py.code lo then inl "bad character range"
      else inr (MSet neg false (CRange lo c :: items) None false false)
  | Some p, false => inr (MSet neg false (CChar p :: items) (Some c) false false)
  | None, _ => inr (MSet neg false items (Some c) false false)
  end.

Definition set_flush (items : list cset_item) (pend : option ascii) (dash : bool)
    : list cset_item :=
  let items1 := match pend with Some p => CChar p :: items | None => items end in
  if dash then CChar "-"%char :: items1 else items1.

Definition step_set (st : pstate) (neg first : bool) (items : list cset_item)
    (pend : option ascii) (dash esc : bool) (c : ascii) : string + pstate :=
  let feed c' :=
    match set_feed neg items pend dash c' with
    | inl e => inl e
    | inr md => inr (with_mode md st)
    end in
  if esc then
    match decode_escape c with
    | EClass it =>
        if dash then inl "bad character range"
        else inr (with_mode (MSet neg false (it :: set_flush items pend false)
                                  None false false) st)
    | EChar c' => feed c'
    | EBad => inl (String.append "bad escape \" (String c EmptyString))
    end
  else
    match c with
    | "\" => inr (with_mode (MSet neg first items pend dash true) st)
    | "]" =>
        if first then feed c
        else inr (push_atom (CSet neg (rev (set_flush items pend dash))) st)
    | "-" =>
        match pend, dash with
        | Some _, false => inr (with_mode (MSet neg false items pend true false) st)
        | _, _ => feed c
        end
    | _ => feed c
    end%char.

(** A brace that turns out not to be a quantifier stands for itself, and so
    do the digits and the comma read after it. *)
Definition brace_literals (st : pstate) (lo : list ascii) (comma : bool)
    (hi : list ascii) : pstate :=
  let chars := ("{"%char :: lo) ++ (if comma then [","%char] else []) ++ hi in
  fold_left (fun st' c => push_atom (Lit c) st') chars st.

Definition step_brace (st : pstate) (lo : list ascii) (comma : bool)
    (hi : list ascii) (c : ascii) : string + pstate :=
  if Py.isdigit c then
    inr (with_mode (if comma then MBrace lo true (hi ++ [c])
                    else MBrace (lo ++ [c]) false hi) st)
  else if Ascii.eqb c ","%char && negb comma then
    inr (with_mode (MBrace lo true hi) st)
  else if Ascii.eqb c "}"%char && negb (match lo, comma with [], false => true | _, _ => false end) then
    let lo_n := nat_of_digits lo 0 in
    let hi_n := if comma
                then match hi with [] => None | _ => Some (nat_of_digits hi 0) end
                else Some lo_n in
    match hi_n with
    | Some h => if h <? lo_n then inl "min repeat greater than max repeat"
                else quantify lo_n hi_n (with_mode MNormal st)
    | None => quantify lo_n None (with_mode MNormal st)
    end
  else step_normal (brace_literals st lo comma hi) c.

Definition step (st : pstate) (c : ascii) : string + pstate :=
  match pmode st with
  | MNormal => step_normal st c
  | MEscape => step_escape st c
  | MParen =>
      if Ascii.eqb c "?"%char then inr (with_mode MParenQ st)
      else step_normal (open_group true st) c
  | MParenQ =>
      if Ascii.eqb c ":"%char then inr (open_group false st)
      else inl "unsupported group extension"
  | MSetOpen =>
      if Ascii.eqb c "^"%char
      then inr (with_mode (MSet true true [] None false false) st)
      else step_set st false true [] None false false c
  | MSet neg first items pend dash esc => step_set st neg first items pend dash esc c
  | MBrace lo comma hi => step_brace st lo comma hi c
  end.

Fixpoint steps (st : pstate) (s : string) : string + pstate :=
  match s with
  | EmptyString => inr st
  | String c s' =>
      match step st c with
      | inl e => inl e
      | inr st' => steps st' s'
      end
  end.

Definition initial : pstate :=
  {| top := {| f_group := None; f_alts := []; f_cur := [] |};
     parents := []; next_group := 1; quantified := false; pmode := MNormal |}.

(** End of the pattern text. *)
Definition finish (st : pstate) : string + regex :=
  let done st' :=
    match parents st' with
    | [] => inr (close_frame (top st'))
    | _ :: _ => inl "missing ), unterminated subpattern"
    end in
  match pmode st with
  | MNormal => done st
  | MBrace lo comma hi => done (brace_literals st lo comma hi)
  | MEscape => inl "bad escape (end of pattern)"
  | MParen | MParenQ => inl "missing ), unterminated subpattern"
  | MSetOpen | MSet _ _ _ _ _ _ => inl "unterminated character set"
  end.

Definition parse (s : string) : string + regex :=
  match steps initial s with
  | inl e => inl e
  | inr st => finish st
  end.

(** [re.compile(s, flags)] on the pattern texts the program itself builds
    (its fixed patterns and escaped literals): the compiled pattern, or a
    message when the text has a syntax error or lies outside the supported
    syntax.  On a regular expression supplied by a user, [re.compile] is a
    parameter of the loader. *)
Definition compile (s : string) (fl : flags) : string + pattern :=
  match parse s with
  | inl e => inl e
  | inr r => inr {| tree := r; pflags := fl |}
  end.

End Re.

(** ** Exceptions *)

(** The exception classes the modelled code raises or catches; each carries
    the text [str(e)] gives. *)
Inductive exn : Type :=
  | ExtractionError (msg : string)
  | ValueError (msg : string)
  | FileNotFoundError (msg : string)
  | ReError (msg : string)
  | OtherException (msg : string).

Definition str_of_exn (e : exn) : string :=
  match e with
  | ExtractionError m | ValueError m | FileNotFoundError m
  | ReError m | OtherException m => m
  end.

(** ** Data model of [extractors.py] *)

Module TextFragment.
Record t := mk {
  text : string;
  source : string;
  page : option Z;
  location : option string
}.
End TextFragment.

Module Corpus.
Record t := mk {
  fragments : list TextFragment.t;
  surfaces_extracted : list string;
  ocr_performed : bool
}.

Definition empty : t :=
  {| fragments := []; surfaces_extracted := []; ocr_performed := false |}.

(** [" ".join(f.text for f in self.fragments if f.text)] *)
Definition full_text (c : t) : string :=
  Py.join " "
    (map TextFragment.text
       (filter (fun f => Py.truthy (TextFragment.text f) = true) (fragments c))).

(** [[f for f in self.fragments if f.source == source]] *)
Definition get_by_source (c : t) (source : string) : list TextFragment.t :=
  filter (fun f => TextFragment.source f = source) (fragments c).
End Corpus.

(** ** The content-stream tokenizer of [extractors.py] *)
Module Tokenizer.

Definition _unescape_pdf_string (s : string) : string :=
  let replacements :=
    [ ("\n", String "010" EmptyString);
      ("\r", String "013" EmptyString);
      ("\t", String "009" EmptyString);
      ("\(", "(");
      ("\)", ")");
      ("\\", "\") ] in
  fold_left (fun s '(old, new) => Py.replace old new s) replacements s.

Definition hex_val (c : ascii) : option nat :=
  if Py.in_range 48 57 c then Some (Py.code c - 48)
  else if Py.in_range 97 102 c then Some (Py.code c - 87)
  else if Py.in_range 65 70 c then Some (Py.code c - 55)
  else None.

Definition ascii_space (c : ascii) : bool :=
  Py.in_range 9 13 c || (Py.code c =? 32).

(** [bytes.fromhex]: pairs of hexadecimal digits, with ASCII white space
    allowed between the pairs; [None] stands for the [ValueError]. *)
Fixpoint fromhex (s : string) : option (list ascii) :=
  match s with
  | EmptyString => Some []
  | String c s1 =>
      if ascii_space c then fromhex s1
      else
        match hex_val c, s1 with
        | Some hi, String d s2 =>
            match hex_val d with
            | Some lo => option_map (cons (ascii_of_nat (16 * hi + lo))) (fromhex s2)
            | None => None
            end
        | _, _ => None
        end
  end.

Section WithDecoder.

(** [bytes.decode("utf-8", errors="ignore")], a codec of the Python runtime. *)
Variable utf8_decode_ignore : list ascii -> string.

Definition keep_stripped (text : string) (texts : list string) : list string :=
  if Py.truthy (Py.strip text) then texts ++ [Py.strip text] else texts.

Definition tj_pass (tj_pattern : Re.pattern) (stream : string)
    (texts : list string) : list string :=
  fold_left
    (fun texts mt => keep_stripped (_unescape_pdf_string (Re.group mt 1)) texts)
    (Re.finditer tj_pattern stream) texts.

Definition tj_array_pass (tj_array_pattern string_pattern : Re.pattern)
    (stream : string) (texts : list string) : list string :=
  fold_left
    (fun texts mt =>
       let array_content := Re.group mt 1 in
       fold_left
         (fun texts str_match =>
            keep_stripped (_unescape_pdf_string (Re.group str_match 1)) texts)
         (Re.finditer string_pattern array_content) texts)
    (Re.finditer tj_array_pattern stream) texts.

Definition hex_pass (hex_pattern : Re.pattern) (stream : string)
    (texts : list string) : list string :=
  fold_left
    (fun texts mt =>
       let hex_str :=
         Py.replace (String "013" EmptyString) ""
           (Py.replace (String "010" EmptyString) ""
              (Py.replace " " "" (Re.group mt 1))) in
       match fromhex hex_str with
       | Some bytes => keep_stripped (utf8_decode_ignore bytes) texts
       | None => texts
       end)
    (Re.finditer hex_pattern stream) texts.

Fixpoint any_alpha (s : string) : bool :=
  match s with
  | EmptyString => false
  | String c s' => Py.isalpha c || any_alpha s'
  end.

Definition all_strings_pass (all_strings_pattern : Re.pattern) (stream : string)
    (texts : list string) : list string :=
  fold_left
    (fun texts mt =>
       let text := Re.group mt 1 in
       if any_alpha text then
         let text := _unescape_pdf_string text in
         if Py.truthy (Py.strip text) && (3 <=? String.length (Py.strip text))
         then texts ++ [Py.strip text] else texts
       else texts)
    (Re.finditer all_strings_pattern stream) texts.

(** [_extract_text_from_content_stream(stream)]; [inl] would be a [re.error]
    from compiling one of the constant patterns. *)
Definition _extract_text_from_content_stream (stream : string) : exn + string :=
  match Re.compile "\(([^)]*)\)\s*Tj" Re.DOTALL with
  | inl e => inl (ReError e)
  | inr tj_pattern =>
  let texts := tj_pass tj_pattern stream [] in
  match Re.compile "\[((?:[^]]+))\]\s*TJ" Re.DOTALL,
        Re.compile "\(([^)]*)\)" Re.NOFLAGS with
  | inr tj_array_pattern, inr string_pattern =>
  let texts := tj_array_pass tj_array_pattern string_pattern stream texts in
  match Re.compile "<([0-9A-Fa-f\s]+)>\s*T[^a-zA-Z]" Re.DOTALL with
  | inl e => inl (ReError e)
  | inr hex_pattern =>
  let texts := hex_pass hex_pattern stream texts in
  match Re.compile "\(([^)]{3,})\)" Re.DOTALL with
  | inl e => inl (ReError e)
  | inr all_strings_pattern =>
  let texts := all_strings_pass all_strings_pattern stream texts in
  inr (Py.join " " texts)
  end end
  | inl e, _ | _, inl e => inl (ReError e)
  end end.

End WithDecoder.
End Tokenizer.

(** ** [extract_all] of [extractors.py]

    The document adapter (PyMuPDF) is outside the repository.  A document is
    described by what its adapter calls return: [Ok v], or [Raise m] for an
    exception with text [m]. *)
Module Extractors.

Inductive outcome (A : Type) : Type :=
  | Ok (v : A)
  | Raise (msg : string).
Arguments Ok {A} v.
Arguments Raise {A} msg.

(** A page, as [_extract_content_streams] sees it: the result of
    [page.get_text("text")], called outside any [try], and the fragments its
    guarded raw content-stream block appends (that block swallows every
    exception). *)
Record Page := {
  get_text : outcome string;
  stream_fragments : list TextFragment.t
}.

(** An opened document.  For each later extractor the field gives what the
    call does: the fragments it appends, or the exception that escapes it.
    [ocr] also tells whether the OCR engine was found and run. *)
Record Document := {
  pages : list Page;
  annotations : outcome (list TextFragment.t);
  form_fields : outcome (list TextFragment.t);
  metadata : outcome (list TextFragment.t);
  xobjects : outcome (list TextFragment.t);
  ocg_layers : outcome (list TextFragment.t);
  embedded : outcome (list TextFragment.t);
  all_streams : outcome (list TextFragment.t);
  ocr : outcome (bool * list TextFragment.t)
}.

Definition add_surface (name : string) (c : Corpus.t) : Corpus.t :=
  {| Corpus.fragments := Corpus.fragments c;
     Corpus.surfaces_extracted := Corpus.surfaces_extracted c ++ [name];
     Corpus.ocr_performed := Corpus.ocr_performed c |}.

Definition add_fragments (fs : list TextFragment.t) (c : Corpus.t) : Corpus.t :=
  {| Corpus.fragments := Corpus.fragments c ++ fs;
     Corpus.surfaces_extracted := Corpus.surfaces_extracted c;
     Corpus.ocr_performed := Corpus.ocr_performed c |}.

Definition set_ocr_performed (b : bool) (c : Corpus.t) : Corpus.t :=
  {| Corpus.fragments := Corpus.fragments c;
     Corpus.surfaces_extracted := Corpus.surfaces_extracted c;
     Corpus.ocr_performed := b || Corpus.ocr_performed c |}.

(** The loop of [_extract_content_streams] over [enumerate(doc)]. *)
Fixpoint content_pages (ps : list Page) (page_num : Z) (c : Corpus.t)
    : exn + Corpus.t :=
  match ps with
  | [] => inr c
  | p :: ps' =>
      match get_text p with
      | Raise m => inl (OtherException m)
      | Ok text =>
          let c1 :=
            if Py.truthy text && Py.truthy (Py.strip text)
            then add_fragments
                   [ {| TextFragment.text := Py.strip text;
                        TextFragment.source := "content";
                        TextFragment.page := Some page_num;
                        TextFragment.location := None |} ] c
            else c in
          content_pages ps' (page_num + 1) (add_fragments (stream_fragments p) c1)
      end
  end.

Definition _extract_content_streams (doc : Document) (c : Corpus.t)
    : exn + Corpus.t :=
  content_pages (pages doc) 0 (add_surface "content_streams" c).

(** An extractor known by its surface name and its outcome on the document. *)
Definition surface (name : string) (out : outcome (list TextFragment.t))
    (c : Corpus.t) : exn + Corpus.t :=
  match out with
  | Raise m => inl (OtherException m)
  | Ok fs => inr (add_fragments fs (add_surface name c))
  end.

Definition _extract_ocr (doc : Document) (c : Corpus.t) : exn + Corpus.t :=
  match ocr doc with
  | Raise m => inl (OtherException m)
  | Ok (performed, fs) =>
      inr (add_fragments fs (set_ocr_performed performed (add_surface "ocr" c)))
  end.

Definition bind {A B : Type} (x : exn + A) (f : A -> exn + B) : exn + B :=
  match x with
  | inl e => inl e
  | inr a => f a
  end.

Notation "x <- e1 ;; e2" := (bind e1 (fun x => e2))
  (at level 100, e1 at next level, right associativity).

(** [extract_all(pdf_path, strict, ocr_mode)]; [fitz_open] is [fitz.open]. *)
Definition extract_all (fitz_open : string -> outcome Document)
    (pdf_path : string) (strict : bool) (ocr_mode : string) : exn + Corpus.t :=
  match fitz_open pdf_path with
  | Raise e => inl (ExtractionError ("Failed to open PDF: " +:+ e))
  | Ok doc =>
      c <- _extract_content_streams doc Corpus.empty ;;
      c <- surface "annotations" (annotations doc) c ;;
      c <- surface "form_fields" (form_fields doc) c ;;
      c <- surface "metadata" (metadata doc) c ;;
      c <- surface "xobjects" (xobjects doc) c ;;
      c <- surface "ocg_layers" (ocg_layers doc) c ;;
      c <- surface "embedded" (embedded doc) c ;;
      c <- surface "all_streams" (all_streams doc) c ;;
      if String.eqb ocr_mode "auto" || String.eqb ocr_mode "always"
      then _extract_ocr doc c
      else inr c
  end.

End Extractors.

(** ** [denylist.py] *)

Module DenylistPattern.
Record t := mk {
  pattern : Re.pattern;
  original : string;
  is_regex : bool
}.

(** What [re.compile] does with the text of a regular expression: it returns
    a pattern object, raises [re.error] with a message, or raises an
    exception of another class ([OverflowError] for a repetition count that
    is too large, for instance). *)
Inductive compile_outcome : Type :=
  | Compiled (p : Re.pattern)
  | ReErrorRaised (msg : string)
  | OtherRaised (e : exn).

(** [DenylistPattern.from_string(s, as_regex)].  [re_compile] is [re.compile]
    on the regular expression a user supplies; only [re.error] is caught
    there.  The escaped literal of the other branch is compiled by the
    modelled compiler, whose syntax covers it. *)
Definition from_string_with (re_compile : string -> Re.flags -> compile_outcome)
    (s : string) (as_regex : bool) : exn + t :=
  if as_regex then
    match re_compile s Re.IGNORECASE_MULTILINE with
    | Compiled compiled =>
        inr {| pattern := compiled; original := s; is_regex := true |}
    | ReErrorRaised e =>
        inl (ValueError ("Invalid regex pattern '" +:+ s +:+ "': " +:+ e))
    | OtherRaised e => inl e
    end
  else
    let escaped := Re.escape s in
    let escaped := Py.replace "\ " "\s+" escaped in
    match Re.compile escaped Re.IGNORECASE with
    | inl e => inl (ReError e)
    | inr compiled => inr {| pattern := compiled; original := s; is_regex := false |}
    end.

(** The modelled compiler as an outcome of [re.compile]: what it does not
    accept is reported as [re.error]. *)
Definition modelled_compile (s : string) (fl : Re.flags) : compile_outcome :=
  match Re.compile s fl with
  | inl e => ReErrorRaised e
  | inr compiled => Compiled compiled
  end.

(** [from_string] with the modelled compiler. *)
Definition from_string (s : string) (as_regex : bool) : exn + t :=
  from_string_with modelled_compile s as_regex.
End DenylistPattern.

Module Match.
Record t := mk {
  pattern : string;
  text : string;
  source : string;
  page : option Z;
  location : option string
}.
End Match.

Module Denylist.

(** The loop over the inline strings. *)
Fixpoint load_strings (strings : list string) (patterns : list DenylistPattern.t)
    : exn + list DenylistPattern.t :=
  match strings with
  | [] => inr patterns
  | s :: rest =>
      if Py.truthy s && Py.truthy (Py.strip s) then
        match DenylistPattern.from_string (Py.strip s) false with
        | inl e => inl e
        | inr dp => load_strings rest (patterns ++ [dp])
        end
      else load_strings rest patterns
  end.

(** The loop over [enumerate(f, 1)]; [re_compile] is [re.compile] on the
    regular expressions of the file.  Only a [ValueError] is given the line
    number; any other exception passes through. *)
Fixpoint load_lines (re_compile : string -> Re.flags -> DenylistPattern.compile_outcome)
    (lines : list string) (line_num : nat)
    (patterns : list DenylistPattern.t) : exn + list DenylistPattern.t :=
  match lines with
  | [] => inr patterns
  | line :: rest =>
      let line := Py.strip line in
      if negb (Py.truthy line) || Py.startswith "#" line then
        load_lines re_compile rest (S line_num) patterns
      else if Py.startswith "regex:" line then
        let regex_str := Py.strip (Py.drop 6 line) in
        if Py.truthy regex_str then
          match DenylistPattern.from_string_with re_compile regex_str true with
          | inl (ValueError e) =>
              inl (ValueError ("Invalid regex on line " +:+ Py.str_of_nat line_num
                               +:+ ": " +:+ e))
          | inl e => inl e
          | inr dp => load_lines re_compile rest (S line_num) (patterns ++ [dp])
          end
        else load_lines re_compile rest (S line_num) patterns
      else
        match DenylistPattern.from_string_with re_compile line false with
        | inl e => inl e
        | inr dp => load_lines re_compile rest (S line_num) (patterns ++ [dp])
        end
  end.

(** [load_denylist(strings, file_path)].  [read_lines path] is [None] when the
    file does not exist and otherwise the lines iterating over it yields;
    [re_compile] is [re.compile] on the regular expressions of the file. *)
Definition load_denylist_with
    (re_compile : string -> Re.flags -> DenylistPattern.compile_outcome)
    (read_lines : string -> option (list string))
    (strings : option (list string)) (file_path : option string)
    : exn + list DenylistPattern.t :=
  match load_strings (default [] strings) [] with
  | inl e => inl e
  | inr patterns =>
      match file_path with
      | None => inr patterns
      | Some path =>
          match read_lines path with
          | None => inl (FileNotFoundError ("Denylist file not found: " +:+ path))
          | Some lines => load_lines re_compile lines 1 patterns
          end
      end
  end.

(** [load_denylist] with the modelled compiler. *)
Definition load_denylist (read_lines : string -> option (list string))
    (strings : option (list string)) (file_path : option string)
    : exn + list DenylistPattern.t :=
  load_denylist_with DenylistPattern.modelled_compile read_lines strings file_path.

(** The key under which a match is remembered in [seen_matches]. *)
Definition match_key : Type := string * string * option Z * string.

(** The state both loops of [check_corpus] update. *)
Record state := State {
  matches : list Match.t;
  seen_matches : gset match_key
}.

(** Body of the inner loop of the fragment pass. *)
Definition check_fragment (fragment : TextFragment.t) (st : state)
    (dp : DenylistPattern.t) : state :=
  match Re.search (DenylistPattern.pattern dp) (TextFragment.text fragment) with
  | Some _ =>
      let matched_text :=
        match Re.search (DenylistPattern.pattern dp) (TextFragment.text fragment) with
        | Some match_obj => Re.group match_obj 0
        | None => DenylistPattern.original dp
        end in
      let key : match_key :=
        (DenylistPattern.original dp, TextFragment.source fragment,
         TextFragment.page fragment, matched_text) in
      if decide (key ∈ seen_matches st) then st
      else
        {| seen_matches := {[ key ]} ∪ seen_matches st;
           matches := matches st ++
             [ {| Match.pattern := DenylistPattern.original dp;
                  Match.text := matched_text;
                  Match.source := TextFragment.source fragment;
                  Match.page := TextFragment.page fragment;
                  Match.location := TextFragment.location fragment |} ] |}
  | None => st
  end.

(** The fragment pass: every non-empty fragment against every pattern. *)
Definition fragment_pass (fragments : list TextFragment.t)
    (patterns : list DenylistPattern.t) (st : state) : state :=
  fold_left
    (fun st fragment =>
       if negb (Py.truthy (TextFragment.text fragment)) then st
       else fold_left (check_fragment fragment) patterns st)
    fragments st.

(** Does the fragment hold three consecutive characters of the matched text?
    Only asked when the matched text has more than three characters. *)
Definition contributes (matched_text : string) (fragment : TextFragment.t) : bool :=
  let fragment_lower := Py.lower (TextFragment.text fragment) in
  let matched_lower := Py.lower matched_text in
  (3 <? String.length matched_lower)
  && existsb
       (fun i => Py.contains (Py.take 3 (Py.drop i matched_lower)) fragment_lower)
       (seq 0 (String.length matched_lower - 2)).

(** The attribution loop: the source of the last contributing fragment and the
    set of all contributing sources. *)
Definition attribute_step (matched_text : string)
    (acc : string * gset string) (fragment : TextFragment.t) : string * gset string :=
  if Py.truthy (TextFragment.text fragment) && contributes matched_text fragment
  then (TextFragment.source fragment, {[ TextFragment.source fragment ]} ∪ acc.2)
  else acc.

Definition sorted (xs : gset string) : list string :=
  merge_sort String.le (elements xs).

Definition spanning_source (fragments : list TextFragment.t) (matched_text : string)
    : string :=
  let '(source, contributing_sources) :=
    fold_left (attribute_step matched_text) fragments ("multiple_sources", ∅) in
  if 1 <? size contributing_sources
  then "multiple_sources(" +:+ Py.join "," (sorted contributing_sources) +:+ ")"
  else source.

(** Body of the loop of the full-text pass. *)
Definition check_full_text (corpus : Corpus.t) (full_text : string) (st : state)
    (dp : DenylistPattern.t) : state :=
  match Re.search (DenylistPattern.pattern dp) full_text with
  | Some _ =>
      let matched_text :=
        match Re.search (DenylistPattern.pattern dp) full_text with
        | Some match_obj => Re.group match_obj 0
        | None => DenylistPattern.original dp
        end in
      let key : match_key :=
        (DenylistPattern.original dp, "full_text", None, matched_text) in
      if decide (key ∈ seen_matches st) then st
      else
        {| seen_matches := {[ key ]} ∪ seen_matches st;
           matches := matches st ++
             [ {| Match.pattern := DenylistPattern.original dp;
                  Match.text := matched_text;
                  Match.source := spanning_source (Corpus.fragments corpus) matched_text;
                  Match.page := None;
                  Match.location := Some "spanning_multiple_fragments" |} ] |}
  | None => st
  end.

Definition full_text_pass (corpus : Corpus.t) (patterns : list DenylistPattern.t)
    (st : state) : state :=
  let full_text := Corpus.full_text corpus in
  if Py.truthy full_text
  then fold_left (check_full_text corpus full_text) patterns st
  else st.

(** [check_corpus(corpus, patterns)] *)
Definition check_corpus (corpus : Corpus.t) (patterns : list DenylistPattern.t)
    : list Match.t :=
  let st := {| matches := []; seen_matches := ∅ |} in
  let st := fragment_pass (Corpus.fragments corpus) patterns st in
  let st := full_text_pass corpus patterns st in
  matches st.

End Denylist.

(** ** [core.py] *)

Inductive ExitCode : Type := PASS | FAIL | ERROR.

Definition exit_value (e : ExitCode) : Z :=
  match e with PASS => 0 | FAIL => 1 | ERROR => 2 end.

Module VerifyResult.
Record t := mk {
  exit_code : ExitCode;
  matches : list Match.t;
  error : option string;
  surfaces_checked : list string;
  ocr_performed : bool
}.
End VerifyResult.

Module Core.

(** [verify(pdf_path, denylist_patterns, strict, ocr_mode)] *)
Definition verify (fitz_open : string -> Extractors.outcome Extractors.Document)
    (pdf_path : string) (denylist_patterns : option (list DenylistPattern.t))
    (strict : bool) (ocr_mode : string) : VerifyResult.t :=
  let denylist_patterns := default [] denylist_patterns in
  match Extractors.extract_all fitz_open pdf_path strict ocr_mode with
  | inl (ExtractionError e) =>
      {| VerifyResult.exit_code := ERROR; VerifyResult.matches := [];
         VerifyResult.error := Some e;
         VerifyResult.surfaces_checked := []; VerifyResult.ocr_performed := false |}
  | inl e =>
      {| VerifyResult.exit_code := ERROR; VerifyResult.matches := [];
         VerifyResult.error :=
           Some ("Unexpected error reading PDF: " +:+ str_of_exn e);
         VerifyResult.surfaces_checked := []; VerifyResult.ocr_performed := false |}
  | inr corpus =>
      match denylist_patterns with
      | [] =>
          {| VerifyResult.exit_code := PASS; VerifyResult.matches := [];
             VerifyResult.error := None;
             VerifyResult.surfaces_checked := Corpus.surfaces_extracted corpus;
             VerifyResult.ocr_performed := Corpus.ocr_performed corpus |}
      | _ :: _ =>
          let matches := Denylist.check_corpus corpus denylist_patterns in
          match matches with
          | _ :: _ =>
              {| VerifyResult.exit_code := FAIL; VerifyResult.matches := matches;
                 VerifyResult.error := None;
                 VerifyResult.surfaces_checked := Corpus.surfaces_extracted corpus;
                 VerifyResult.ocr_performed := Corpus.ocr_performed corpus |}
          | [] =>
              {| VerifyResult.exit_code := PASS; VerifyResult.matches := [];
                 VerifyResult.error := None;
                 VerifyResult.surfaces_checked := Corpus.surfaces_extracted corpus;
                 VerifyResult.ocr_performed := Corpus.ocr_performed corpus |}
          end
      end
  end.

End Core.

(** ** [report.py] *)

Module Report.

(** The properties [passed], [failed] and [errored] of a [VerifyResult]. *)
Definition passed (r : VerifyResult.t) : bool :=
  match VerifyResult.exit_code r with PASS => true | _ => false end.
Definition failed (r : VerifyResult.t) : bool :=
  match VerifyResult.exit_code r with FAIL => true | _ => false end.
Definition errored (r : VerifyResult.t) : bool :=
  match VerifyResult.exit_code r with ERROR => true | _ => false end.

(** [sum(1 for _, r in results if p(r))] *)
Definition count (p : VerifyResult.t -> bool)
    (results : list (string * VerifyResult.t)) : nat :=
  fold_left (fun n '(_, r) => if p r then n + 1 else n) results 0.

(** The [summary] entry of the report [format_json] builds (and the counts of
    the last line of [format_text]). *)
Record summary := Summary {
  total : nat;
  n_passed : nat;
  n_failed : nat;
  n_errors : nat
}.

Definition format_json_summary (results : list (string * VerifyResult.t))
    : summary :=
  {| total := length results;
     n_passed := count passed results;
     n_failed := count failed results;
     n_errors := count errored results |}.

(** [_exit_code_to_status(code)] *)
Definition _exit_code_to_status (code : ExitCode) : string :=
  match code with
  | PASS => "pass"
  | FAIL => "fail"
  | ERROR => "error"
  end.

End Report.

(** ** [cli.py] *)

Module Cli.

(** The parsed arguments; a path is identified with its text. *)
Record args := Args {
  files : list string;
  deny_strings : option (list string);
  denyfile : option string;
  strict : bool;
  ocr : string;
  json_output : bool;
  jobs : Z
}.

Section WithSystem.

(** [glob.glob(pattern, recursive=True)] *)
Variable glob_glob : string -> list string.
(** [Path.exists] *)
Variable path_exists : string -> bool.
(** The lines of a denylist file, [None] when it does not exist. *)
Variable read_lines : string -> option (list string).
(** [fitz.open] *)
Variable fitz_open : string -> Extractors.outcome Extractors.Document.
(** The order in which the submitted jobs complete. *)
Variable as_completed : list string -> list string.

Definition is_glob (pattern : string) : bool :=
  existsb (fun c => Py.contains c pattern) ["*"; "?"; "["].

(** [expand_globs(patterns)] *)
Definition expand_globs (patterns : list string) : list string :=
  fold_left
    (fun files pattern =>
       if is_glob pattern then files ++ glob_glob pattern else files ++ [pattern])
    patterns [].

(** [verify_single_file(file_path, patterns, strict, ocr_mode)] *)
Definition verify_single_file (file_path : string)
    (patterns : list DenylistPattern.t) (strict : bool) (ocr_mode : string)
    : string * VerifyResult.t :=
  (file_path, Core.verify fitz_open file_path (Some patterns) strict ocr_mode).

(** What both loops of [main] do with one result. *)
Definition collect (acc : list (string * VerifyResult.t) * ExitCode)
    (file_path : string) (result : VerifyResult.t)
    : list (string * VerifyResult.t) * ExitCode :=
  let '(results, worst_exit) := acc in
  (results ++ [(file_path, result)],
   if (exit_value worst_exit <? exit_value (VerifyResult.exit_code result))%Z
   then VerifyResult.exit_code result
   else worst_exit).

(** The verification block of [main]: the results in the order they are
    reported, and the worst exit code. *)
Definition verify_all (a : args) (files : list string)
    (patterns : list DenylistPattern.t)
    : list (string * VerifyResult.t) * ExitCode :=
  if (1 <? jobs a)%Z && (1 <? length files)
  then
    fold_left
      (fun acc f =>
         let '(file_path, result) := verify_single_file f patterns (strict a) (ocr a) in
         collect acc file_path result)
      (as_completed files) ([], PASS)
  else
    fold_left
      (fun acc file_path =>
         collect acc file_path
           (Core.verify fitz_open file_path (Some patterns) (strict a) (ocr a)))
      files ([], PASS).

(** [main(argv)] after the arguments are parsed: the value it returns, or the
    exception that escapes it.  What it prints is left out. *)
Definition main (a : args) : exn + Z :=
  let files := expand_globs (files a) in
  match files with
  | [] => inr (exit_value ERROR)
  | _ :: _ =>
      match List.filter (fun f => negb (path_exists f)) files with
      | _ :: _ => inr (exit_value ERROR)
      | [] =>
          match Denylist.load_denylist read_lines (deny_strings a) (denyfile a) with
          | inl e => inl e
          | inr patterns => inr (exit_value (snd (verify_all a files patterns)))
          end
      end
  end.

End WithSystem.

End Cli.

(** * Vocabulary of the properties *)

(** The texts that take part in [full_text]: those of the fragments whose
    text is not empty, in insertion order. *)
Definition nonempty_texts (c : Corpus.t) : list string :=
  filter (fun s => s ≠ "") (map TextFragment.text (Corpus.fragments c)).

Definition total_length (l : list string) : nat :=
  foldr (fun s n => String.length s + n) 0 l.

Module Examples.

Definition frag (text source : string) (page : option Z) (location : option string)
    : TextFragment.t :=
  {| TextFragment.text := text; TextFragment.source := source;
     TextFragment.page := page; TextFragment.location := location |}.

Definition corpus_of (fs : list TextFragment.t) : Corpus.t :=
  {| Corpus.fragments := fs; Corpus.surfaces_extracted := [];
     Corpus.ocr_performed := false |}.

(** Three fragments, the middle one with an empty text. *)
Definition with_empty_fragment : Corpus.t :=
  corpus_of [ frag "a" "content" (Some 0%Z) None;
              frag "" "annotation" (Some 0%Z) None;
              frag "b" "content" (Some 1%Z) None ].

(** One metadata fragment; metadata fragments carry no page. *)
Definition metadata_only : Corpus.t :=
  corpus_of [ frag "the secret data" "metadata" None (Some "meta:title") ].

(** One short content fragment. *)
Definition short_fragment : Corpus.t :=
  corpus_of [ frag "abc" "content" (Some 0%Z) None ].

(** Two content fragments of one page that differ in their location tag. *)
Definition two_locations : Corpus.t :=
  corpus_of [ frag "a  b a b" "content" (Some 0%Z) (Some "L1");
              frag "a b" "content" (Some 0%Z) (Some "L2") ].

Definition no_fragments : Extractors.outcome (list TextFragment.t) := Extractors.Ok [].

(** A document with one page of text and nothing else. *)
Definition one_page (text : Extractors.outcome string) : Extractors.Document :=
  {| Extractors.pages :=
       [ {| Extractors.get_text := text; Extractors.stream_fragments := [] |} ];
     Extractors.annotations := no_fragments;
     Extractors.form_fields := no_fragments;
     Extractors.metadata := no_fragments;
     Extractors.xobjects := no_fragments;
     Extractors.ocg_layers := no_fragments;
     Extractors.embedded := no_fragments;
     Extractors.all_streams := no_fragments;
     Extractors.ocr := Extractors.Ok (false, []) |}.

(** Every path opens as the same readable one-page document. *)
Definition opens_readable (_ : string) : Extractors.outcome Extractors.Document :=
  Extractors.Ok (one_page (Extractors.Ok "Confidential: Jane Doe, SSN 123-45-6789")).

(** Every path opens, but reading the text of the page raises. *)
Definition opens_then_raises (_ : string) : Extractors.outcome Extractors.Document :=
  Extractors.Ok (one_page (Extractors.Raise "cannot load page")).

(** No path can be opened. *)
Definition cannot_open (_ : string) : Extractors.outcome Extractors.Document :=
  Extractors.Raise "no such file".

End Examples.

Definition pass_result (corpus : Corpus.t) : VerifyResult.t :=
  {| VerifyResult.exit_code := PASS; VerifyResult.matches := [];
     VerifyResult.error := None;
     VerifyResult.surfaces_checked := Corpus.surfaces_extracted corpus;
     VerifyResult.ocr_performed := Corpus.ocr_performed corpus |}.

Definition fail_result (corpus : Corpus.t) (ms : list Match.t) : VerifyResult.t :=
  {| VerifyResult.exit_code := FAIL; VerifyResult.matches := ms;
     VerifyResult.error := None;
     VerifyResult.surfaces_checked := Corpus.surfaces_extracted corpus;
     VerifyResult.ocr_performed := Corpus.ocr_performed corpus |}.

Definition error_result (msg : string) : VerifyResult.t :=
  {| VerifyResult.exit_code := ERROR; VerifyResult.matches := [];
     VerifyResult.error := Some msg;
     VerifyResult.surfaces_checked := []; VerifyResult.ocr_performed := false |}.

(** The message [verify] reports for an exception of [extract_all]. *)
Definition error_message (e : exn) : string :=
  match e with
  | ExtractionError m => m
  | _ => "Unexpected error reading PDF: " +:+ str_of_exn e
  end.

(** After the document is opened no step raises [ExtractionError]. *)
Definition not_extraction_error {A : Type} (x : exn + A) : Prop :=
  ∀ m, x ≠ inl (ExtractionError m).

Definition tuple_of (m : Match.t) : string * string * option Z * string :=
  (Match.pattern m, Match.source m, Match.page m, Match.text m).

(** What a literal denylist string is compiled to: one node per character,
    a white-space repetition for each space and the character itself
    otherwise. *)
Definition literal_atom (c : ascii) : Re.regex :=
  if Ascii.eqb c " "%char
  then Re.Repeat 1 None (Re.CSet false [Re.CSpace])
  else Re.Lit c.

Fixpoint literal_tree (s : string) : Re.regex :=
  match s with
  | EmptyString => Re.Empty
  | String c s' => Re.Cat (literal_atom c) (literal_tree s')
  end.

(** The pattern text [from_string] hands to [re.compile] for a literal. *)
Definition rewritten_char (c : ascii) : string :=
  if Ascii.eqb c " "%char then "\s+"
  else if Re.is_special c then String "\"%char (String c EmptyString)
  else String c EmptyString.

Fixpoint rewritten (s : string) : string :=
  match s with
  | EmptyString => EmptyString
  | String c s' => rewritten_char c +:+ rewritten s'
  end.

Fixpoint all_space (s : string) : bool :=
  match s with
  | EmptyString => true
  | String c s' => Py.isspace c && all_space s'
  end.

(** [expands s t]: the text [t] is [s] with every space replaced by a
    non-empty run of white space and every other character kept up to its
    letter case. *)
Inductive expands : string → string → Prop :=
  | expands_empty : expands "" ""
  | expands_space s ws t :
      ws ≠ "" → all_space ws = true → expands s t →
      expands (String " "%char s) (ws +:+ t)
  | expands_char c c' s t :
      c ≠ " "%char → Py.lower_char c = Py.lower_char c' → expands s t →
      expands (String c s) (String c' t).

(** [sub] occurs in [s]. *)
Definition occurs (sub s : string) : Prop := ∃ pre post, s = pre +:+ sub +:+ post.

(** The parser state after more atoms were read into the current branch. *)
Definition pushed (atoms : list Re.regex) (q : bool) (st : Re.pstate) : Re.pstate :=
  {| Re.top := {| Re.f_group := Re.f_group (Re.top st);
                  Re.f_alts := Re.f_alts (Re.top st);
                  Re.f_cur := atoms ++ Re.f_cur (Re.top st) |};
     Re.parents := Re.parents st; Re.next_group := Re.next_group st;
     Re.quantified := q; Re.pmode := Re.MNormal |}.

Definition literal_atoms (s : string) : list Re.regex :=
  map literal_atom (list_ascii_of_string s).

(** The compiled form of the literal [s]. *)
Definition literal_pattern (s : string) : DenylistPattern.t :=
  {| DenylistPattern.pattern :=
       {| Re.tree := literal_tree s; Re.pflags := Re.IGNORECASE |};
     DenylistPattern.original := s;
     DenylistPattern.is_regex := false |}.

(** The key and the match the fragment pass records for a hit of [dp] in
    [fragment]. *)
Definition fragment_key (fragment : TextFragment.t) (dp : DenylistPattern.t)
    (matched_text : string) : Denylist.match_key :=
  (DenylistPattern.original dp, TextFragment.source fragment,
   TextFragment.page fragment, matched_text).

Definition fragment_match (fragment : TextFragment.t) (dp : DenylistPattern.t)
    (matched_text : string) : Match.t :=
  {| Match.pattern := DenylistPattern.original dp;
     Match.text := matched_text;
     Match.source := TextFragment.source fragment;
     Match.page := TextFragment.page fragment;
     Match.location := TextFragment.location fragment |}.

(** The key and the match the full-text pass records. *)
Definition full_text_key (dp : DenylistPattern.t) (matched_text : string)
    : Denylist.match_key :=
  (DenylistPattern.original dp, "full_text", None, matched_text).

Definition spanning_match (corpus : Corpus.t) (dp : DenylistPattern.t)
    (matched_text : string) : Match.t :=
  {| Match.pattern := DenylistPattern.original dp;
     Match.text := matched_text;
     Match.source := Denylist.spanning_source (Corpus.fragments corpus) matched_text;
     Match.page := None;
     Match.location := Some "spanning_multiple_fragments" |}.

(** Remember [m] under [key] unless the key was seen before. *)
Definition remember (key : Denylist.match_key) (m : Match.t) (st : Denylist.state)
    : Denylist.state :=
  if decide (key ∈ Denylist.seen_matches st) then st
  else {| Denylist.seen_matches := {[ key ]} ∪ Denylist.seen_matches st;
          Denylist.matches := Denylist.matches st ++ [m] |}.

Definition initial_state : Denylist.state :=
  {| Denylist.matches := []; Denylist.seen_matches := ∅ |}.

(** The pattern string a key was recorded for. *)
Definition key_pattern (k : Denylist.match_key) : string := k.1.1.1.

(** Every key the fragment pass has seen belongs to a recorded match of a
    fragment of the corpus. *)
Definition keys_recorded (fragments : list TextFragment.t) (st : Denylist.state) : Prop :=
  ∀ k, k ∈ Denylist.seen_matches st →
    ∃ m f, m ∈ Denylist.matches st ∧ tuple_of m = k
           ∧ f ∈ fragments ∧ Match.source m = TextFragment.source f.

(** Two fragments that split the name "John Smith" between them. *)
Definition split_name : Corpus.t :=
  Examples.corpus_of
    [ Examples.frag "John" "content" (Some 0%Z) None;
      Examples.frag "Smith was here" "annotation" (Some 1%Z) None ].

(** [simulates o st1 st2]: the run [st2] differs from the run [st1] only by
    what was recorded for the pattern string [o]. *)
Definition simulates (o : string) (st1 st2 : Denylist.state) : Prop :=
  Denylist.matches st1 = filter (fun m => Match.pattern m ≠ o) (Denylist.matches st2)
  ∧ ∀ k, key_pattern k ≠ o →
      (k ∈ Denylist.seen_matches st1 ↔ k ∈ Denylist.seen_matches st2).

(** The attribution of a spanning match, as the code computes it.  A fragment
    qualifies when its text is not empty, the lower-cased matched text has
    more than three characters, and three consecutive characters of the
    lower-cased matched text occur in the lower-cased fragment text. *)
Definition shares_trigram (a b : string) : Prop :=
  ∃ u, String.length u = 3 ∧ occurs u (Py.lower a) ∧ occurs u (Py.lower b).

Definition qualifies (matched_text : string) (f : TextFragment.t) : Prop :=
  TextFragment.text f ≠ ""
  ∧ 3 < String.length (Py.lower matched_text)
  ∧ shares_trigram matched_text (TextFragment.text f).

(** [Q] is the set of the sources of the qualifying fragments. *)
Definition qualifying_sources (fragments : list TextFragment.t)
    (matched_text : string) (Q : gset string) : Prop :=
  ∀ src, src ∈ Q ↔
    ∃ f, f ∈ fragments ∧ TextFragment.source f = src ∧ qualifies matched_text f.

Definition attributed (fragments : list TextFragment.t) (matched_text src : string)
    : Prop :=
  ∃ Q, qualifying_sources fragments matched_text Q
    ∧ (Q = ∅ → src = "multiple_sources")
    ∧ (∀ x, Q = {[ x ]} → src = x)
    ∧ (1 < size Q →
       ∃ l, src = "multiple_sources(" +:+ Py.join "," l +:+ ")"
            ∧ Sorted String.le l ∧ l ≡ₚ elements Q).

Definition spanning_shape (c : Corpus.t) (m : Match.t) : Prop :=
  Match.location m = Some "spanning_multiple_fragments"
  ∧ Match.page m = None
  ∧ attributed (Corpus.fragments c) (Match.text m) (Match.source m).

(** Qualification as the claim words it: an overlap of at least three
    characters, whatever the length of the matched text. *)
Definition qualifies_as_claimed (matched_text : string) (f : TextFragment.t) : Prop :=
  ∃ u, 3 ≤ String.length u ∧ occurs u matched_text ∧ occurs u (TextFragment.text f).

(** The sources the attribution loop collects. *)
Definition contributing (matched_text : string) (f : TextFragment.t) : Prop :=
  Py.truthy (TextFragment.text f) && Denylist.contributes matched_text f = true.

#[global] Instance contributing_dec (matched_text : string) (f : TextFragment.t) :
  Decision (contributing matched_text f).
Proof. unfold contributing. apply _. Defined.

Definition contributing_set (matched_text : string) (fragments : list TextFragment.t)
    : gset string :=
  list_to_set (map TextFragment.source (filter (contributing matched_text) fragments)).

(** What a line of the denylist file stands for, after trimming: nothing
    (blank, comment, or [regex:] with nothing behind it), a regex, or a
    literal phrase. *)
Inductive line_kind : Type :=
  | Ignored
  | RegexLine (regex_str : string)
  | LiteralLine (phrase : string).

Definition classify (raw : string) : line_kind :=
  let line := Py.strip raw in
  if negb (Py.truthy line) || Py.startswith "#" line then Ignored
  else if Py.startswith "regex:" line then
    let regex_str := Py.strip (Py.drop 6 line) in
    if Py.truthy regex_str then RegexLine regex_str else Ignored
  else LiteralLine line.

(** A regular-expression compiler. *)
Definition compiler : Type := string → Re.flags → DenylistPattern.compile_outcome.

(** The pattern a line contributes, when it contributes one. *)
Definition line_pattern (re_compile : compiler) (raw : string)
    : option DenylistPattern.t :=
  match classify raw with
  | Ignored => None
  | RegexLine regex_str =>
      match re_compile regex_str Re.IGNORECASE_MULTILINE with
      | DenylistPattern.Compiled compiled =>
          Some {| DenylistPattern.pattern := compiled;
                  DenylistPattern.original := regex_str;
                  DenylistPattern.is_regex := true |}
      | _ => None
      end
  | LiteralLine phrase => Some (literal_pattern phrase)
  end.

(** The regex of the line, if it is a regex line, compiles. *)
Definition line_compiles (re_compile : compiler) (raw : string) : Prop :=
  match classify raw with
  | RegexLine regex_str =>
      ∃ compiled,
        re_compile regex_str Re.IGNORECASE_MULTILINE = DenylistPattern.Compiled compiled
  | _ => True
  end.



(** [re.compile] on the regular expressions of the examples: an unbalanced
    parenthesis is an [re.error], a repetition count beyond the limit is an
    [OverflowError]. *)
Definition sample_compile : compiler :=
  fun s fl =>
    if String.eqb s "(a"
    then DenylistPattern.ReErrorRaised "missing ), unterminated subpattern at position 0"
    else if String.eqb s "a{99999999999}"
    then DenylistPattern.OtherRaised (OtherException "the repetition number is too large")
    else DenylistPattern.modelled_compile s fl.

(** A denylist file of six lines, and the same file with a broken regex
    on a seventh line. *)
Definition sample_lines : list string :=
  [ "# names"; "John Smith"; ""; "regex:"; "  regex: AcctNum:\d+ "; "   " ].

Definition sample_file (_ : string) : option (list string) := Some sample_lines.



(** A hit of a pattern: the key it is remembered under and the match to
    report. *)
Definition hit : Type := Denylist.match_key * Match.t.

Definition fragment_find (f : TextFragment.t) (dp : DenylistPattern.t) : option hit :=
  match Re.search (DenylistPattern.pattern dp) (TextFragment.text f) with
  | Some mo => Some (fragment_key f dp (Re.group0 mo), fragment_match f dp (Re.group0 mo))
  | None => None
  end.

Definition full_text_find (c : Corpus.t) (dp : DenylistPattern.t) : option hit :=
  match Re.search (DenylistPattern.pattern dp) (Corpus.full_text c) with
  | Some mo => Some (full_text_key dp (Re.group0 mo), spanning_match c dp (Re.group0 mo))
  | None => None
  end.

(** The common shape of the two loop bodies of [check_corpus]. *)
Definition record_hit (find : DenylistPattern.t → option hit) (st : Denylist.state)
    (dp : DenylistPattern.t) : Denylist.state :=
  match find dp with
  | Some (k, m) => remember k m st
  | None => st
  end.

(** [st'] is [st] with more keys seen and more matches appended. *)
Definition extends (st st' : Denylist.state) : Prop :=
  Denylist.seen_matches st ⊆ Denylist.seen_matches st'
  ∧ ∃ extra, Denylist.matches st' = Denylist.matches st ++ extra.

(** The matches of the fragment pass and the matches the full-text pass
    appends to them. *)
Definition fragment_matches (c : Corpus.t) (ps : list DenylistPattern.t) : list Match.t :=
  Denylist.matches (Denylist.fragment_pass (Corpus.fragments c) ps initial_state).

Definition spanning_matches (c : Corpus.t) (ps : list DenylistPattern.t) : list Match.t :=
  drop (length (fragment_matches c ps)) (Denylist.check_corpus c ps).

(** [dp] hits the non-empty fragment [f], or the non-empty full text. *)
Definition hits_fragment (c : Corpus.t) (dp : DenylistPattern.t) (f : TextFragment.t)
    (mo : Re.re_match) : Prop :=
  f ∈ Corpus.fragments c ∧ TextFragment.text f ≠ ""
  ∧ Re.search (DenylistPattern.pattern dp) (TextFragment.text f) = Some mo.

Definition hits_full_text (c : Corpus.t) (dp : DenylistPattern.t) (mo : Re.re_match)
    : Prop :=
  Corpus.full_text c ≠ ""
  ∧ Re.search (DenylistPattern.pattern dp) (Corpus.full_text c) = Some mo.

(** Every seen key comes with at least one recorded match. *)
Definition witnessed (st : Denylist.state) : Prop :=
  ∀ k, k ∈ Denylist.seen_matches st → Denylist.matches st ≠ [].

(** The matches appended after [base] are remembered under the keys [g]
    gives them, and no two of them share such a key. *)
Definition distinct_after (g : Match.t → Denylist.match_key) (base : list Match.t)
    (st : Denylist.state) : Prop :=
  ∃ added, Denylist.matches st = base ++ added
    ∧ NoDup (map g added)
    ∧ ∀ m, m ∈ added → g m ∈ Denylist.seen_matches st.

(** The key of a spanning match. *)
Definition spanning_key_of (m : Match.t) : Denylist.match_key :=
  (Match.pattern m, "full_text", None, Match.text m).

(** Some pattern of the list hits a non-empty fragment or the non-empty
    full text. *)
Definition some_hit (c : Corpus.t) (ps : list DenylistPattern.t) : Prop :=
  ∃ dp, dp ∈ ps
    ∧ ((∃ f mo, hits_fragment c dp f mo) ∨ (∃ mo, hits_full_text c dp mo)).

(** A corpus whose fragments all have an empty text. *)
Definition blank_corpus : Corpus.t :=
  Examples.corpus_of
    [ Examples.frag "" "content" (Some 0%Z) None;
      Examples.frag "" "metadata" None (Some "meta:title") ].

(** The phrases the inline strings of [load_denylist] contribute: each
    string trimmed, the blank ones dropped. *)
Definition inline_phrases (strings : list string) : list string :=
  filter (fun s => s ≠ "") (map Py.strip strings).

(** A pattern string as the loader produces them: not empty, and with no
    white space at either end. *)
Definition trimmed_nonempty (s : string) : Prop := s ≠ "" ∧ Py.strip s = s.

Definition no_file (_ : string) : option (list string) := None.

(** Is OCR asked for? *)
Definition ocr_requested (ocr_mode : string) : bool :=
  String.eqb ocr_mode "auto" || String.eqb ocr_mode "always".

(** The surfaces every successful extraction attempts, in order. *)
Definition base_surfaces : list string :=
  [ "content_streams"; "annotations"; "form_fields"; "metadata";
    "xobjects"; "ocg_layers"; "embedded"; "all_streams" ].

(** The fragment [_extract_content_streams] makes of the layout text of a
    page. *)
Definition layout_fragment (text : string) (page_num : Z) : TextFragment.t :=
  {| TextFragment.text := Py.strip text;
     TextFragment.source := "content";
     TextFragment.page := Some page_num;
     TextFragment.location := None |}.

(** A document of two pages; the second page holds an account number. *)
Definition two_pages : Extractors.Document :=
  {| Extractors.pages :=
       [ {| Extractors.get_text := Extractors.Ok "  Cover page  ";
            Extractors.stream_fragments := [] |};
         {| Extractors.get_text := Extractors.Ok "Account 998877 closed";
            Extractors.stream_fragments := [] |} ];
     Extractors.annotations := Examples.no_fragments;
     Extractors.form_fields := Examples.no_fragments;
     Extractors.metadata := Examples.no_fragments;
     Extractors.xobjects := Examples.no_fragments;
     Extractors.ocg_layers := Examples.no_fragments;
     Extractors.embedded := Examples.no_fragments;
     Extractors.all_streams := Examples.no_fragments;
     Extractors.ocr := Extractors.Ok (true, []) |}.

Definition opens_two_pages (_ : string) : Extractors.outcome Extractors.Document :=
  Extractors.Ok two_pages.

(** Every character of [s] passes [ok]. *)
Fixpoint every (ok : ascii → bool) (s : string) : bool :=
  match s with
  | EmptyString => true
  | String c s' => ok c && every ok s'
  end.

(** The character before the cursor once [t] was read. *)
Fixpoint last_of (t : string) (p : option ascii) : option ascii :=
  match t with
  | EmptyString => p
  | String c t' => last_of t' (Some c)
  end.

(** The matcher state once the characters of [t] were consumed, [r] being
    what follows them. *)
Definition moved (t r : string) (st : Re.mstate) : Re.mstate :=
  {| Re.prev := last_of t (Re.prev st); Re.rest := r; Re.caps := Re.caps st |}.

(** The next character, if there is one, fails [ok]. *)
Definition stops (ok : ascii → bool) (r : string) : Prop :=
  match r with
  | EmptyString => True
  | String c _ => ok c = false
  end.

(** The trees of the tokenizer's patterns for a parenthesised string:
    [\(([^)]{lo,})\)] followed by [tail]. *)
Definition paren_tree (lo : nat) (tail : Re.regex) : Re.regex :=
  Re.Cat (Re.Lit "(")
    (Re.Cat
       (Re.Group 1
          (Re.Cat (Re.Repeat lo None (Re.CSet true [Re.CChar ")"%char])) Re.Empty))
       (Re.Cat (Re.Lit ")") tail)).

(** [\s*Tj] *)
Definition tj_tail : Re.regex :=
  Re.Cat (Re.Repeat 0 None (Re.CSet false [Re.CSpace]))
    (Re.Cat (Re.Lit "T") (Re.Cat (Re.Lit "j") Re.Empty)).

Definition tj_pattern : Re.pattern :=
  {| Re.tree := paren_tree 0 tj_tail; Re.pflags := Re.DOTALL |}.

Definition all_strings_pattern : Re.pattern :=
  {| Re.tree := paren_tree 3 Re.Empty; Re.pflags := Re.DOTALL |}.

(** A string operand free of parentheses, of [[] and of [<]. *)
Definition plain_char (c : ascii) : bool :=
  negb (existsb (Ascii.eqb c) ["("; ")"; "["; "<"]%char).

Definition plain (t : string) : bool := every plain_char t.

(** The content stream that shows [t] with the [Tj] operator. *)
Definition shown (t : string) : string := "(" +:+ t +:+ ") Tj".

(** What the broader search of the tokenizer keeps of the operand [t]. *)
Definition looks_like_text (t : string) : bool :=
  (3 <=? String.length t) && Tokenizer.any_alpha t
  && (3 <=? String.length (Py.strip (Tokenizer._unescape_pdf_string t))).

(** The exit code [verify] gives a file under the arguments [a]. *)
Definition verdict (fitz_open : string → Extractors.outcome Extractors.Document)
    (a : Cli.args) (patterns : list DenylistPattern.t) (f : string) : ExitCode :=
  VerifyResult.exit_code
    (Core.verify fitz_open f (Some patterns) (Cli.strict a) (Cli.ocr a)).

(** The result reported for a file. *)
Definition reported (fitz_open : string → Extractors.outcome Extractors.Document)
    (a : Cli.args) (patterns : list DenylistPattern.t) (f : string)
    : string * VerifyResult.t :=
  (f, Core.verify fitz_open f (Some patterns) (Cli.strict a) (Cli.ocr a)).

(** What a literal argument or a glob pattern expands to. *)
Definition expansion (glob_glob : string → list string) (pattern : string)
    : list string :=
  if Cli.is_glob pattern then glob_glob pattern else [pattern].

(** A system for the examples: no glob matches, every path but [gone.pdf]
    exists, no denylist file, and jobs complete in reverse order. *)
Definition no_glob (_ : string) : list string := [].
Definition all_but_gone (f : string) : bool := negb (String.eqb f "gone.pdf").
Definition reversed (fs : list string) : list string := rev fs.

Definition opens_by_name (f : string) : Extractors.outcome Extractors.Document :=
  if String.eqb f "broken.pdf" then Extractors.Raise "cannot open"
  else Extractors.Ok two_pages.

Definition batch_args : Cli.args :=
  {| Cli.files := ["a.pdf"; "broken.pdf"; "b.pdf"];
     Cli.deny_strings := Some ["998877"];
     Cli.denyfile := None;
     Cli.strict := false;
     Cli.ocr := "off";
     Cli.json_output := true;
     Cli.jobs := 4 |}.

(** A string without a backslash. *)
Definition no_backslash (s : string) : bool :=
  every (fun c => negb (Ascii.eqb "\" c)) s.


(** * Properties *)

(** ** Strings *)
Section StringFacts.

Lemma app_cons (c : ascii) (s t : string) : String c s +:+ t = String c (s +:+ t).
Proof. reflexivity. Qed.

Lemma app_empty_l (t : string) : "" +:+ t = t.
Proof. reflexivity. Qed.

Lemma app_empty_r (s : string) : s +:+ "" = s.
Proof. induction s as [|c s IH]; [reflexivity|]. rewrite app_cons. by f_equal. Qed.

Lemma app_assoc_str (s t u : string) : (s +:+ t) +:+ u = s +:+ (t +:+ u).
Proof. induction s as [|c s IH]; [reflexivity|]. rewrite !app_cons. by f_equal. Qed.

Lemma length_app_str (s t : string) :
  String.length (s +:+ t) = String.length s + String.length t.
Proof. induction s as [|c s IH]; [reflexivity|]. rewrite app_cons. simpl. by f_equal. Qed.

Lemma truthy_true (s : string) : Py.truthy s = true ↔ s ≠ "".
Proof. destruct s; simpl; split; intros; congruence. Qed.

Lemma truthy_false (s : string) : Py.truthy s = false ↔ s = "".
Proof. destruct s; simpl; split; intros; congruence. Qed.

End StringFacts.

(** ** The full text of a corpus *)

Lemma texts_of_truthy_fragments (fs : list TextFragment.t) :
  map TextFragment.text (filter (fun f => Py.truthy (TextFragment.text f) = true) fs)
  = filter (fun s => s ≠ "") (map TextFragment.text fs).
Proof.
  induction fs as [|f fs IH]; [reflexivity|].
  rewrite filter_cons. simpl map. rewrite filter_cons.
  destruct (decide (Py.truthy (TextFragment.text f) = true)) as [Ht|Ht];
    destruct (decide (TextFragment.text f ≠ "")) as [Hn|Hn].
  - simpl. by rewrite IH.
  - apply truthy_true in Ht. contradiction.
  - exfalso. apply Ht. by apply truthy_true.
  - exact IH.
Qed.

Lemma full_text_unfold (c : Corpus.t) :
  Corpus.full_text c = Py.join " " (nonempty_texts c).
Proof. unfold Corpus.full_text, nonempty_texts. by rewrite texts_of_truthy_fragments. Qed.

Lemma join_cons_cons (sep x y : string) (l : list string) :
  Py.join sep (x :: y :: l) = x +:+ sep +:+ Py.join sep (y :: l).
Proof. reflexivity. Qed.

Lemma length_join_space (l : list string) :
  String.length (Py.join " " l) = total_length l + (length l - 1).
Proof.
  induction l as [|x l IH]; [reflexivity|].
  destruct l as [|y l].
  - simpl. lia.
  - rewrite join_cons_cons, !length_app_str, IH. simpl. lia.
Qed.

(** C8 (as amended): the full text is the sequence of the non-empty fragment
    texts, in insertion order, joined by single spaces; with [k] non-empty
    fragments its length is the total length of those texts plus [k - 1]
    joining spaces. *)
Theorem full_text_joins_nonempty_texts (c : Corpus.t) :
  Corpus.full_text c = Py.join " " (nonempty_texts c)
  ∧ String.length (Corpus.full_text c)
    = total_length (nonempty_texts c) + (length (nonempty_texts c) - 1).
Proof.
  split; [apply full_text_unfold|].
  rewrite full_text_unfold. apply length_join_space.
Qed.

(** C8 (as stated) fails: a fragment with an empty text is left out of the
    full text, so three fragments are joined by one space, not two. *)
Lemma full_text_skips_empty_fragment :
  Corpus.full_text Examples.with_empty_fragment = "a b"
  ∧ Corpus.full_text Examples.with_empty_fragment
    ≠ Py.join " " (map TextFragment.text (Corpus.fragments Examples.with_empty_fragment))
  ∧ length (Corpus.fragments Examples.with_empty_fragment) = 3.
Proof. split; [reflexivity|]. split; [discriminate|reflexivity]. Qed.

(** ** The verify orchestrator *)

Lemma verify_on_success fitz_open pdf_path patterns strict ocr_mode corpus :
  Extractors.extract_all fitz_open pdf_path strict ocr_mode = inr corpus →
  Core.verify fitz_open pdf_path patterns strict ocr_mode
  = match default [] patterns with
    | [] => pass_result corpus
    | ps =>
        match Denylist.check_corpus corpus ps with
        | [] => pass_result corpus
        | ms => fail_result corpus ms
        end
    end.
Proof.
  intros He. unfold Core.verify. rewrite He.
  destruct (default [] patterns) as [|p ps]; [reflexivity|].
  destruct (Denylist.check_corpus corpus (p :: ps)); reflexivity.
Qed.

Lemma verify_on_raise fitz_open pdf_path patterns strict ocr_mode e :
  Extractors.extract_all fitz_open pdf_path strict ocr_mode = inl e →
  Core.verify fitz_open pdf_path patterns strict ocr_mode
  = error_result (error_message e).
Proof.
  intros He. unfold Core.verify. rewrite He. by destruct e.
Qed.

(** C2: when extraction succeeds, an empty pattern list gives PASS with the
    surfaces and the OCR flag of the corpus; a non-empty pattern list gives
    FAIL with the whole match list exactly when [check_corpus] finds a match,
    and PASS otherwise. *)
Theorem verify_decision fitz_open pdf_path patterns strict ocr_mode corpus :
  Extractors.extract_all fitz_open pdf_path strict ocr_mode = inr corpus →
  let r := Core.verify fitz_open pdf_path patterns strict ocr_mode in
  let ps := default [] patterns in
  (ps = [] → r = pass_result corpus)
  ∧ (ps ≠ [] →
     (VerifyResult.exit_code r = FAIL ↔ Denylist.check_corpus corpus ps ≠ [])
     ∧ (Denylist.check_corpus corpus ps ≠ [] →
        r = fail_result corpus (Denylist.check_corpus corpus ps))
     ∧ (Denylist.check_corpus corpus ps = [] → r = pass_result corpus)).
Proof.
  intros He r ps. subst r.
  rewrite (verify_on_success _ _ _ _ _ _ He). fold ps.
  split.
  - intros ->. reflexivity.
  - intros Hne. destruct ps as [|p ps']; [done|].
    destruct (Denylist.check_corpus corpus (p :: ps')) as [|m ms] eqn:Hc.
    + split; [|split]; try done; split; done.
    + split; [|split]; try done; split; done.
Qed.

Lemma extract_all_readable :
  Extractors.extract_all Examples.opens_readable "doc.pdf" false "off"
  = inr {| Corpus.fragments :=
             [ Examples.frag "Confidential: Jane Doe, SSN 123-45-6789" "content"
                 (Some 0%Z) None ];
           Corpus.surfaces_extracted :=
             [ "content_streams"; "annotations"; "form_fields"; "metadata";
               "xobjects"; "ocg_layers"; "embedded"; "all_streams" ];
           Corpus.ocr_performed := false |}.
Proof. vm_compute. reflexivity. Qed.

Lemma verify_decision_witness :
  let corpus :=
    {| Corpus.fragments :=
         [ Examples.frag "Confidential: Jane Doe, SSN 123-45-6789" "content"
             (Some 0%Z) None ];
       Corpus.surfaces_extracted :=
         [ "content_streams"; "annotations"; "form_fields"; "metadata";
           "xobjects"; "ocg_layers"; "embedded"; "all_streams" ];
       Corpus.ocr_performed := false |} in
  Core.verify Examples.opens_readable "doc.pdf" None false "off" = pass_result corpus.
Proof.
  intros corpus.
  exact (proj1 (verify_decision Examples.opens_readable "doc.pdf" None false "off"
                  corpus extract_all_readable) eq_refl).
Defined.

(** C3 (as stated) fails: the document is opened, reading the text of its
    page raises, and [verify] returns ERROR. *)
Lemma verify_error_without_open_failure :
  (∃ doc, Examples.opens_then_raises "doc.pdf" = Extractors.Ok doc)
  ∧ Core.verify Examples.opens_then_raises "doc.pdf" None false "off"
    = error_result "Unexpected error reading PDF: cannot load page".
Proof. split; [eexists; reflexivity|]. vm_compute. reflexivity. Qed.

Lemma error_message_nonempty (e : exn) :
  (∀ m, e = ExtractionError m → m ≠ "") → error_message e ≠ "".
Proof.
  intros H. destruct e as [m| | | |]; simpl; try discriminate.
  by apply H.
Qed.

Lemma bind_not_extraction_error {A B : Type} (x : exn + A) (f : A → exn + B) :
  not_extraction_error x → (∀ a, not_extraction_error (f a)) →
  not_extraction_error (Extractors.bind x f).
Proof.
  intros Hx Hf m. destruct x as [e|a]; simpl.
  - intros [= ->]. by apply (Hx m).
  - apply Hf.
Qed.

Lemma content_pages_not_extraction_error ps n c :
  not_extraction_error (Extractors.content_pages ps n c).
Proof.
  revert n c. induction ps as [|p ps IH]; intros n c m; simpl; [discriminate|].
  destruct (Extractors.get_text p); [apply IH|discriminate].
Qed.

Lemma surface_not_extraction_error name out c :
  not_extraction_error (Extractors.surface name out c).
Proof. intros m. destruct out; simpl; discriminate. Qed.

Lemma ocr_not_extraction_error doc c :
  not_extraction_error (Extractors._extract_ocr doc c).
Proof.
  intros m. unfold Extractors._extract_ocr.
  destruct (Extractors.ocr doc) as [[? ?]|?]; discriminate.
Qed.

Lemma extract_all_extraction_error fitz_open pdf_path strict ocr_mode m :
  Extractors.extract_all fitz_open pdf_path strict ocr_mode = inl (ExtractionError m) →
  ∃ e, fitz_open pdf_path = Extractors.Raise e ∧ m = "Failed to open PDF: " +:+ e.
Proof.
  unfold Extractors.extract_all.
  destruct (fitz_open pdf_path) as [doc|e].
  - intros He. exfalso. revert He.
    apply bind_not_extraction_error;
      [apply content_pages_not_extraction_error|intros c0].
    do 7 (apply bind_not_extraction_error;
            [apply surface_not_extraction_error|intros ?]).
    destruct (_ || _); [apply ocr_not_extraction_error|discriminate].
  - intros [= <-]. eauto.
Qed.

(** C3 (as amended): [verify] returns ERROR exactly when [extract_all] raises,
    which it does when the document cannot be opened and also when an
    exception escapes an extractor after it was opened.  The result then
    carries a non-empty error message, no match, and nothing of the corpus. *)
Theorem verify_error_iff_extraction_raises fitz_open pdf_path patterns strict ocr_mode :
  let r := Core.verify fitz_open pdf_path patterns strict ocr_mode in
  (VerifyResult.exit_code r = ERROR
   ↔ ∃ e, Extractors.extract_all fitz_open pdf_path strict ocr_mode = inl e)
  ∧ ((∃ m, fitz_open pdf_path = Extractors.Raise m) → VerifyResult.exit_code r = ERROR)
  ∧ (VerifyResult.exit_code r = ERROR →
     ∃ msg, msg ≠ "" ∧ r = error_result msg).
Proof.
  intros r. subst r.
  destruct (Extractors.extract_all fitz_open pdf_path strict ocr_mode)
    as [e|corpus] eqn:He.
  - rewrite (verify_on_raise _ _ _ _ _ _ He).
    split; [|split].
    + split; [eauto|reflexivity].
    + reflexivity.
    + intros _. exists (error_message e). split; [|reflexivity].
      apply error_message_nonempty. intros m ->.
      apply extract_all_extraction_error in He as (e' & _ & ->). discriminate.
  - rewrite (verify_on_success _ _ _ _ _ _ He).
    assert (Hne : VerifyResult.exit_code
              match default [] patterns with
              | [] => pass_result corpus
              | _ :: _ =>
                  match Denylist.check_corpus corpus (default [] patterns) with
                  | [] => pass_result corpus
                  | m :: ms => fail_result corpus (m :: ms)
                  end
              end ≠ ERROR).
    { destruct (default [] patterns); [discriminate|].
      destruct (Denylist.check_corpus _ _); discriminate. }
    assert (Heq : match default [] patterns with
              | [] => pass_result corpus
              | (_ :: _) as ps =>
                  match Denylist.check_corpus corpus ps with
                  | [] => pass_result corpus
                  | (_ :: _) as ms => fail_result corpus ms
                  end
              end
              = match default [] patterns with
              | [] => pass_result corpus
              | _ :: _ =>
                  match Denylist.check_corpus corpus (default [] patterns) with
                  | [] => pass_result corpus
                  | m :: ms => fail_result corpus (m :: ms)
                  end
              end).
    { destruct (default [] patterns); reflexivity. }
    rewrite Heq.
    split; [|split].
    + split; [done|]. intros [e [=]].
    + intros [m Hm]. unfold Extractors.extract_all in He. rewrite Hm in He. discriminate.
    + done.
Qed.

Lemma verify_error_iff_extraction_raises_witness :
  VerifyResult.exit_code (Core.verify Examples.cannot_open "doc.pdf" None false "off")
  = ERROR.
Proof.
  apply (verify_error_iff_extraction_raises Examples.cannot_open "doc.pdf" None false "off").
  eexists. reflexivity.
Defined.

(** ** The tokenizer *)

(** C5 fails on the code: a hexadecimal string followed by [Tj] is not
    extracted, whatever the decoder, because the pattern asks for a
    character that is not a letter after the [T].  The same string followed
    by [T*] is extracted. *)
Theorem hex_string_before_Tj_dropped (utf8_decode_ignore : list ascii → string) :
  Tokenizer._extract_text_from_content_stream utf8_decode_ignore "<48656c6c6f> Tj"
  = inr ""
  ∧ Tokenizer._extract_text_from_content_stream utf8_decode_ignore "<48656C6C6F> TJ"
    = inr ""
  ∧ Tokenizer.fromhex "48656c6c6f" = Some (list_ascii_of_string "Hello")
  ∧ Tokenizer._extract_text_from_content_stream utf8_decode_ignore "<48656c6c6f> T*"
    = inr (Py.join " "
             (Tokenizer.keep_stripped
                (utf8_decode_ignore (list_ascii_of_string "Hello")) [])).
Proof. split; [|split; [|split]]; vm_compute; reflexivity. Qed.

(** ** Matching *)

(** C6 fails on the code: a literal found in a fragment that carries no page
    is reported a second time by the full-text pass, with the same pattern,
    source, page and matched text. *)
Theorem spanning_match_duplicates_fragment_match :
  ∃ p, DenylistPattern.from_string "secret" false = inr p
    ∧ Denylist.check_corpus Examples.metadata_only [p]
      = [ {| Match.pattern := "secret"; Match.text := "secret";
             Match.source := "metadata"; Match.page := None;
             Match.location := Some "meta:title" |};
          {| Match.pattern := "secret"; Match.text := "secret";
             Match.source := "metadata"; Match.page := None;
             Match.location := Some "spanning_multiple_fragments" |} ]
    ∧ ¬ NoDup (map tuple_of (Denylist.check_corpus Examples.metadata_only [p])).
Proof.
  eexists. split; [reflexivity|].
  assert (H : Denylist.check_corpus Examples.metadata_only
                [match DenylistPattern.from_string "secret" false with
                 | inr p => p
                 | inl _ => DenylistPattern.mk (Re.Pattern Re.Empty Re.NOFLAGS) "" false
                 end]
              = [ {| Match.pattern := "secret"; Match.text := "secret";
                     Match.source := "metadata"; Match.page := None;
                     Match.location := Some "meta:title" |};
                  {| Match.pattern := "secret"; Match.text := "secret";
                     Match.source := "metadata"; Match.page := None;
                     Match.location := Some "spanning_multiple_fragments" |} ]).
  { vm_compute. reflexivity. }
  split; [exact H|].
  change (¬ NoDup (map tuple_of (Denylist.check_corpus Examples.metadata_only
                [match DenylistPattern.from_string "secret" false with
                 | inr p => p
                 | inl _ => DenylistPattern.mk (Re.Pattern Re.Empty Re.NOFLAGS) "" false
                 end]))).
  rewrite H. simpl. intros Hnd. apply NoDup_cons in Hnd as [Hnotin _].
  apply Hnotin. left.
Qed.

(** ** Compiling a literal *)

Lemma prefix_cons (a b : ascii) (s1 s2 : string) :
  String.prefix (String a s1) (String b s2)
  = if ascii_dec a b then String.prefix s1 s2 else false.
Proof. reflexivity. Qed.

Lemma replace_from_0 (old new : string) (c : ascii) (s : string) :
  Py.replace_from old new 0 (String c s)
  = if String.prefix old (String c s)
    then new +:+ Py.replace_from old new (String.length old - 1) s
    else String c (Py.replace_from old new 0 s).
Proof. reflexivity. Qed.

Lemma escape_cons (c : ascii) (s : string) :
  Re.escape (String c s)
  = if Re.is_special c then String "\"%char (String c (Re.escape s))
    else String c (Re.escape s).
Proof. reflexivity. Qed.

Lemma escape_no_leading_space (s t : string) : Re.escape s ≠ String " "%char t.
Proof.
  destruct s as [|c s]; [discriminate|]. rewrite escape_cons.
  destruct (Re.is_special c) eqn:Hc; [discriminate|].
  intros [= -> _]. discriminate Hc.
Qed.

Lemma prefix_escaped_space_false (c : ascii) (t : string) :
  c ≠ "\"%char → String.prefix "\ " (String c t) = false.
Proof. intros Hc. rewrite prefix_cons. destruct (ascii_dec "\" c); congruence. Qed.

Lemma prefix_escaped_space_escape (s : string) :
  String.prefix "\ " (String "\"%char (Re.escape s)) = false.
Proof.
  rewrite prefix_cons. destruct (ascii_dec "\" "\"); [|done].
  destruct (Re.escape s) as [|d t] eqn:He; [reflexivity|].
  rewrite prefix_cons. destruct (ascii_dec " " d) as [<-|]; [|reflexivity].
  by apply escape_no_leading_space in He.
Qed.

Lemma prefix_escaped_space_true (t : string) :
  String.prefix "\ " (String "\"%char (String " "%char t)) = true.
Proof. rewrite !prefix_cons. simpl. by destruct t. Qed.

(** [escape] followed by the replacement of every escaped space. *)
Lemma replace_escape (s : string) :
  Py.replace "\ " "\s+" (Re.escape s) = rewritten s.
Proof.
  unfold Py.replace. induction s as [|c s IH]; [reflexivity|].
  rewrite escape_cons. simpl rewritten. unfold rewritten_char.
  destruct (Ascii.eqb_spec c " ") as [->|Hsp].
  - change (Re.is_special " ") with true. cbv iota. rewrite replace_from_0.
    rewrite prefix_escaped_space_true.
    change (String.length "\ " - 1) with 1.
    change (Py.replace_from "\ " "\s+" 1 (String " " (Re.escape s)))
      with (Py.replace_from "\ " "\s+" 0 (Re.escape s)).
    by rewrite IH.
  - destruct (Re.is_special c) eqn:Hc.
    + rewrite replace_from_0.
      assert (Hp : String.prefix "\ " (String "\" (String c (Re.escape s))) = false).
      { rewrite prefix_cons. destruct (ascii_dec "\" "\"); [|done].
        rewrite prefix_cons. destruct (ascii_dec " " c); congruence. }
      rewrite Hp, replace_from_0.
      assert (Hq : String.prefix "\ " (String c (Re.escape s)) = false).
      { destruct (ascii_dec c "\") as [->|Hb].
        - apply prefix_escaped_space_escape.
        - by apply prefix_escaped_space_false. }
      rewrite Hq, IH. reflexivity.
    + rewrite replace_from_0, prefix_escaped_space_false, IH; [reflexivity|].
      intros ->. discriminate Hc.
Qed.

Lemma steps_app (st : Re.pstate) (s t : string) :
  Re.steps st (s +:+ t)
  = match Re.steps st s with
    | inl e => inl e
    | inr st' => Re.steps st' t
    end.
Proof.
  revert st. induction s as [|c s IH]; intros st; [reflexivity|].
  rewrite app_cons. simpl. destruct (Re.step st c); [reflexivity|apply IH].
Qed.

(** One character of a literal becomes one atom. *)
Lemma steps_rewritten_char (c : ascii) (st : Re.pstate) :
  Re.pmode st = Re.MNormal →
  ∃ q, Re.steps st (rewritten_char c) = inr (pushed [literal_atom c] q st).
Proof.
  intros Hm. destruct st as [tp ps ng q md]. simpl in Hm. subst md.
  destruct c as [[] [] [] [] [] [] [] []]; eexists; reflexivity.
Qed.

Lemma steps_rewritten (s : string) (st : Re.pstate) :
  Re.pmode st = Re.MNormal →
  ∃ q, Re.steps st (rewritten s) = inr (pushed (rev (literal_atoms s)) q st).
Proof.
  revert st. induction s as [|c s IH]; intros st Hm.
  - exists (Re.quantified st). destruct st as [[g al cur] ps ng q md].
    simpl in Hm. subst md. reflexivity.
  - simpl rewritten. rewrite steps_app.
    destruct (steps_rewritten_char c st Hm) as [q1 ->].
    destruct (IH (pushed [literal_atom c] q1 st) eq_refl) as [q2 ->].
    exists q2. unfold pushed, literal_atoms. simpl.
    by rewrite <- app_assoc.
Qed.

Lemma seq_of_rev (atoms : list Re.regex) :
  Re.seq_of (rev atoms) = foldr Re.Cat Re.Empty atoms.
Proof.
  unfold Re.seq_of. induction atoms as [|a atoms IH]; [reflexivity|].
  simpl. rewrite fold_left_app. simpl. by rewrite IH.
Qed.

Lemma literal_tree_atoms (s : string) :
  literal_tree s = foldr Re.Cat Re.Empty (literal_atoms s).
Proof.
  unfold literal_atoms. induction s as [|c s IH]; [reflexivity|].
  simpl. by rewrite IH.
Qed.

Lemma parse_rewritten (s : string) : Re.parse (rewritten s) = inr (literal_tree s).
Proof.
  unfold Re.parse.
  destruct (steps_rewritten s Re.initial eq_refl) as [q ->].
  unfold Re.finish, pushed. simpl.
  unfold Re.close_frame. simpl. rewrite app_nil_r.
  by rewrite seq_of_rev, literal_tree_atoms.
Qed.

(** Compiling a literal never fails, and gives [literal_pattern]. *)
Lemma from_string_with_literal re_compile (s : string) :
  DenylistPattern.from_string_with re_compile s false = inr (literal_pattern s).
Proof.
  unfold DenylistPattern.from_string_with, Re.compile.
  by rewrite replace_escape, parse_rewritten.
Qed.

Lemma from_string_literal (s : string) :
  DenylistPattern.from_string s false = inr (literal_pattern s).
Proof. apply from_string_with_literal. Qed.

(** ** Matching a literal *)

Lemma length_take_drop_lt (w : ascii) (s : string) :
  (String.length s <? String.length (String w s)) = true.
Proof. apply Nat.ltb_lt. simpl. lia. Qed.

Lemma repeat_loop_S body lo hi k fuel count st :
  Re.repeat_loop body lo hi k (S fuel) count st
  = match
      (if Re.below count hi
       then body st (fun st' =>
              if (count <? lo)
                 || (String.length (Re.rest st') <? String.length (Re.rest st))
              then Re.repeat_loop body lo hi k fuel (S count) st'
              else None)
       else None)
    with
    | Some out => Some out
    | None => if lo <=? count then k st else None
    end.
Proof. reflexivity. Qed.

Lemma run_cset fl neg items st k :
  Re.run fl (Re.CSet neg items) st k = Re.one_char st (Re.cset_matches fl neg items) k.
Proof. reflexivity. Qed.

Lemma run_cat fl r1 r2 st k :
  Re.run fl (Re.Cat r1 r2) st k = Re.run fl r1 st (fun st' => Re.run fl r2 st' k).
Proof. reflexivity. Qed.

Lemma run_repeat fl lo hi r1 st k :
  Re.run fl (Re.Repeat lo hi r1) st k
  = Re.repeat_loop (Re.run fl r1) lo hi k (lo + String.length (Re.rest st) + 1) 0 st.
Proof. reflexivity. Qed.

Lemma run_lit fl a st k :
  Re.run fl (Re.Lit a) st k = Re.one_char st (Re.lit_eq fl a) k.
Proof. reflexivity. Qed.

(** The white-space loop reaches the end of a run of white space: if what
    follows the loop succeeds there, so does the loop. *)
Lemma space_loop (fl : Re.flags) (ws : string) :
  all_space ws = true →
  ∀ fuel n st r k,
    Re.rest st = ws +:+ r →
    String.length (Re.rest st) < fuel →
    1 ≤ n + String.length ws →
    (∀ st', Re.rest st' = r → is_Some (k st')) →
    is_Some (Re.repeat_loop (Re.run fl (Re.CSet false [Re.CSpace])) 1 None k fuel n st).
Proof.
  induction ws as [|w ws IH]; intros Hws fuel n st r k Hrest Hfuel Hn Hk.
  - destruct fuel as [|fuel]; [lia|]. rewrite repeat_loop_S.
    match goal with
    | |- is_Some (match ?more with Some _ => _ | None => _ end) =>
        destruct more as [out|]; [by eexists|]
    end.
    simpl in Hn. destruct n as [|n]; [lia|]. simpl. apply Hk. exact Hrest.
  - simpl in Hws. apply andb_prop in Hws as [Hw Hws].
    destruct fuel as [|fuel]; [lia|]. rewrite repeat_loop_S.
    change (Re.below n None) with true. cbv iota.
    rewrite run_cset. unfold Re.one_char. rewrite Hrest, app_cons.
    assert (Hc : Re.cset_matches fl false [Re.CSpace] w = true).
    { unfold Re.cset_matches. simpl. by rewrite Hw. }
    rewrite Hc. unfold Re.advance at 1. simpl Re.rest.
    rewrite length_take_drop_lt, orb_true_r.
    assert (Hsome : is_Some (Re.repeat_loop (Re.run fl (Re.CSet false [Re.CSpace]))
                               1 None k fuel (S n) (Re.advance w (ws +:+ r) st))).
    { apply (IH Hws _ _ _ r); simpl; try done.
      - rewrite Hrest, app_cons in Hfuel. simpl in Hfuel. lia.
      - lia. }
    destruct Hsome as [out ->]. by eexists.
Qed.

(** Completeness of the backtracking matcher on compiled literals. *)
Lemma literal_tree_complete (s t : string) :
  expands s t →
  ∀ st k tail,
    Re.rest st = t +:+ tail →
    (∀ st', Re.rest st' = tail → is_Some (k st')) →
    is_Some (Re.run Re.IGNORECASE (literal_tree s) st k).
Proof.
  induction 1 as [|s ws t Hne Hws Hexp IH|c c' s t Hc Hlow Hexp IH];
    intros st k tail Hrest Hk.
  - simpl. apply Hk. exact Hrest.
  - simpl literal_tree. change (literal_atom " ") with (Re.Repeat 1 None (Re.CSet false [Re.CSpace])).
    rewrite run_cat, run_repeat.
    apply (space_loop Re.IGNORECASE ws Hws _ _ _ (t +:+ tail)).
    + by rewrite Hrest, app_assoc_str.
    + lia.
    + destruct ws; [done|simpl; lia].
    + intros st' Hst'. by apply (IH st' k tail).
  - simpl literal_tree. unfold literal_atom.
    destruct (Ascii.eqb_spec c " ") as [->|_]; [done|].
    rewrite run_cat, run_lit. unfold Re.one_char. rewrite Hrest, app_cons.
    assert (Hl : Re.lit_eq Re.IGNORECASE c c' = true).
    { unfold Re.lit_eq. simpl. rewrite Hlow. apply Ascii.eqb_refl. }
    rewrite Hl. by apply (IH _ k tail).
Qed.

Lemma match_at_literal (s t tail : string) (p : option ascii) :
  expands s t →
  is_Some (Re.match_at Re.IGNORECASE (literal_tree s) p (t +:+ tail)).
Proof.
  intros Hexp. unfold Re.match_at.
  destruct (literal_tree_complete s t Hexp
              {| Re.prev := p; Re.rest := t +:+ tail; Re.caps := [] |} Some tail
              eq_refl) as [out ->]; [by eexists|by eexists].
Qed.

Lemma search_from_unfold (fl : Re.flags) (r : Re.regex) (p : option ascii) (s : string) :
  Re.search_from fl r p s
  = match Re.match_at fl r p s with
    | Some mt => Some mt
    | None =>
        match s with
        | EmptyString => None
        | String c s' => Re.search_from fl r (Some c) s'
        end
    end.
Proof. destruct s; reflexivity. Qed.

(** A match somewhere in the text is found by [search]. *)
Lemma search_from_app (fl : Re.flags) (r : Re.regex) (pre u : string) (p : option ascii) :
  (∀ p', is_Some (Re.match_at fl r p' u)) →
  is_Some (Re.search_from fl r p (pre +:+ u)).
Proof.
  intros Hu. revert p. induction pre as [|c pre IH]; intros p.
  - rewrite app_empty_l, search_from_unfold.
    destruct (Hu p) as [mt ->]. by eexists.
  - rewrite app_cons, search_from_unfold.
    destruct (Re.match_at fl r p _); [by eexists|apply IH].
Qed.

Lemma search_literal (s pre t post : string) :
  expands s t →
  is_Some (Re.search (DenylistPattern.pattern (literal_pattern s)) (pre +:+ t +:+ post)).
Proof.
  intros Hexp. unfold Re.search. simpl.
  apply search_from_app. intros p'. by apply match_at_literal.
Qed.

Lemma expands_refl (s : string) : expands s s.
Proof.
  induction s as [|c s IH]; [constructor|].
  destruct (Ascii.eqb_spec c " ") as [->|Hc].
  - change (String " " s) with (" " +:+ s) at 2. by constructor.
  - by constructor.
Qed.

(** C4 (as stated) fails: two spaces in the literal ask for two white-space
    characters in the text, so replacing the run of two spaces by one space
    gives a text the pattern does not match. *)
Lemma literal_with_two_spaces_misses_one_space :
  ∃ p, DenylistPattern.from_string "a  b" false = inr p
    ∧ Re.search (DenylistPattern.pattern p) "a b" = None
    ∧ is_Some (Re.search (DenylistPattern.pattern p) "A  B").
Proof.
  eexists. split; [apply from_string_literal|].
  split; [vm_compute; reflexivity|]. vm_compute. by eexists.
Qed.

(** C4 (as amended): a literal compiles to a case-insensitive pattern with one
    node per character, where each single space is a one-or-more-white-space
    repetition and every other character stands for itself; it matches inside
    any text that holds the literal with each space replaced by a non-empty
    run of white space, whatever the letter case. *)
Theorem literal_pattern_matches_space_expansions (s : string) :
  ∃ p, DenylistPattern.from_string s false = inr p
    ∧ DenylistPattern.original p = s
    ∧ DenylistPattern.is_regex p = false
    ∧ DenylistPattern.pattern p
      = {| Re.tree := literal_tree s; Re.pflags := Re.IGNORECASE |}
    ∧ ∀ pre t post, expands s t →
        is_Some (Re.search (DenylistPattern.pattern p) (pre +:+ t +:+ post)).
Proof.
  exists (literal_pattern s). split; [apply from_string_literal|].
  repeat split. intros pre t post Hexp. by apply search_literal.
Qed.

(** ** The two passes of [check_corpus] *)

Lemma check_fragment_eq fragment st dp :
  Denylist.check_fragment fragment st dp
  = match Re.search (DenylistPattern.pattern dp) (TextFragment.text fragment) with
    | Some mo =>
        remember (fragment_key fragment dp (Re.group0 mo))
          (fragment_match fragment dp (Re.group0 mo)) st
    | None => st
    end.
Proof.
  unfold Denylist.check_fragment.
  destruct (Re.search _ _) as [mo|]; reflexivity.
Qed.

Lemma check_full_text_eq corpus full_text st dp :
  Denylist.check_full_text corpus full_text st dp
  = match Re.search (DenylistPattern.pattern dp) full_text with
    | Some mo =>
        remember (full_text_key dp (Re.group0 mo))
          (spanning_match corpus dp (Re.group0 mo)) st
    | None => st
    end.
Proof.
  unfold Denylist.check_full_text.
  destruct (Re.search _ _) as [mo|]; reflexivity.
Qed.

Lemma fold_left_invariant {A B : Type} (P : A → Prop) (f : A → B → A) (l : list B) (a : A) :
  P a → (∀ a x, x ∈ l → P a → P (f a x)) → P (fold_left f l a).
Proof.
  revert a. induction l as [|x l IH]; intros a Ha Hf; [exact Ha|].
  simpl. apply IH.
  - apply Hf; [left|exact Ha].
  - intros a' y Hy. apply Hf. by right.
Qed.

Lemma fragment_pass_invariant (P : Denylist.state → Prop) fragments patterns st :
  P st →
  (∀ st f dp, f ∈ fragments → dp ∈ patterns → P st → P (Denylist.check_fragment f st dp)) →
  P (Denylist.fragment_pass fragments patterns st).
Proof.
  intros Hst Hstep. unfold Denylist.fragment_pass.
  apply fold_left_invariant; [exact Hst|].
  intros a f Hf Ha. destruct (negb _); [exact Ha|].
  apply fold_left_invariant; [exact Ha|].
  intros a' dp Hdp Ha'. by apply Hstep.
Qed.

Lemma fragment_pass_keys_recorded fragments patterns :
  keys_recorded fragments (Denylist.fragment_pass fragments patterns initial_state).
Proof.
  apply fragment_pass_invariant.
  - intros k Hk. simpl in Hk. by apply elem_of_empty in Hk.
  - intros st f dp Hf _ Hst. rewrite check_fragment_eq.
    destruct (Re.search _ _) as [mo|]; [|exact Hst].
    unfold remember. case_decide as Hseen; [exact Hst|].
    intros k Hk. simpl in Hk. apply elem_of_union in Hk as [Hk|Hk].
    + apply elem_of_singleton in Hk as ->.
      exists (fragment_match f dp (Re.group0 mo)), f. simpl.
      split; [apply elem_of_app; right; apply list_elem_of_singleton; reflexivity|].
      by repeat split.
    + destruct (Hst k Hk) as (m & f' & Hm & Hrest).
      exists m, f'. split; [|exact Hrest]. simpl. apply elem_of_app. by left.
Qed.

(** ** Fragmentation invariance *)


Lemma occurs_in_empty (s : string) : occurs s "" → s = "".
Proof.
  intros (pre & post & H). destruct pre; [|discriminate].
  rewrite app_empty_l in H. destruct s; [reflexivity|discriminate].
Qed.

Lemma search_literal_occurs (s text : string) :
  occurs s text →
  is_Some (Re.search (DenylistPattern.pattern (literal_pattern s)) text).
Proof.
  intros (pre & post & ->). apply search_literal, expands_refl.
Qed.



Lemma prefix_spec (p s : string) :
  String.prefix p s = true ↔ ∃ post, s = p +:+ post.
Proof.
  revert s. induction p as [|a p IH]; intros s.
  - split; [intros _; by exists s|intros _; by destruct s].
  - destruct s as [|b s].
    + split; [discriminate|intros [post [=]]].
    + rewrite prefix_cons. destruct (ascii_dec a b) as [->|Hab].
      * rewrite IH. split; intros [post H]; exists post.
        -- by rewrite app_cons, H.
        -- rewrite app_cons in H. by inversion H.
      * split; [discriminate|]. intros [post H]. rewrite app_cons in H.
        inversion H. congruence.
Qed.

(** [sub in s] decides [occurs]. *)
Lemma contains_spec (sub s : string) : Py.contains sub s = true ↔ occurs sub s.
Proof.
  induction s as [|c s IH].
  - change (Py.contains sub "") with (String.prefix sub "" || false).
    rewrite orb_false_r, prefix_spec. split.
    + intros [post H]. exists "", post. exact H.
    + intros (pre & post & H). destruct pre; [|discriminate]. by exists post.
  - change (Py.contains sub (String c s))
      with (String.prefix sub (String c s) || Py.contains sub s).
    rewrite orb_true_iff, prefix_spec, IH. split.
    + intros [[post H]|(pre & post & H)].
      * exists "", post. exact H.
      * exists (String c pre), post. by rewrite app_cons, H.
    + intros (pre & post & H). destruct pre as [|c' pre].
      * left. by exists post.
      * right. rewrite app_cons in H. inversion H. by exists pre, post.
Qed.



(** ** Appending a pattern *)

Lemma remember_both o key m st1 st2 :
  key_pattern key ≠ o → Match.pattern m ≠ o →
  simulates o st1 st2 → simulates o (remember key m st1) (remember key m st2).
Proof.
  intros Hk Hm [Hms Hseen]. unfold remember.
  destruct (decide (key ∈ Denylist.seen_matches st1)) as [H1|H1];
    destruct (decide (key ∈ Denylist.seen_matches st2)) as [H2|H2].
  - by split.
  - exfalso. apply H2. by apply Hseen.
  - exfalso. apply H1. by apply Hseen.
  - split; simpl.
    + rewrite filter_app, Hms. f_equal.
      rewrite filter_cons_True by exact Hm. reflexivity.
    + intros k Hko. rewrite !elem_of_union, (Hseen k Hko). reflexivity.
Qed.

Lemma remember_right o key m st1 st2 :
  key_pattern key = o → Match.pattern m = o →
  simulates o st1 st2 → simulates o st1 (remember key m st2).
Proof.
  intros Hk Hm [Hms Hseen]. unfold remember.
  destruct (decide (key ∈ Denylist.seen_matches st2)) as [H2|H2]; [by split|].
  split; simpl.
  - rewrite filter_app, <- Hms.
    rewrite filter_cons_False by (intros Hne; by apply Hne).
    rewrite filter_nil. by rewrite app_nil_r.
  - intros k Hko. rewrite elem_of_union, elem_of_singleton, (Hseen k Hko).
    split; [by right|]. intros [->|H]; [contradiction|exact H].
Qed.

Lemma check_fragment_both o f dp st1 st2 :
  DenylistPattern.original dp ≠ o →
  simulates o st1 st2 →
  simulates o (Denylist.check_fragment f st1 dp) (Denylist.check_fragment f st2 dp).
Proof.
  intros Ho Hsim. rewrite !check_fragment_eq.
  destruct (Re.search _ _) as [mo|]; [|exact Hsim].
  by apply remember_both.
Qed.

Lemma check_fragment_right o f dp st1 st2 :
  DenylistPattern.original dp = o →
  simulates o st1 st2 → simulates o st1 (Denylist.check_fragment f st2 dp).
Proof.
  intros Ho Hsim. rewrite check_fragment_eq.
  destruct (Re.search _ _) as [mo|]; [|exact Hsim].
  by apply remember_right.
Qed.

Lemma check_full_text_both o c ft dp st1 st2 :
  DenylistPattern.original dp ≠ o →
  simulates o st1 st2 →
  simulates o (Denylist.check_full_text c ft st1 dp) (Denylist.check_full_text c ft st2 dp).
Proof.
  intros Ho Hsim. rewrite !check_full_text_eq.
  destruct (Re.search _ _) as [mo|]; [|exact Hsim].
  by apply remember_both.
Qed.

Lemma check_full_text_right o c ft dp st1 st2 :
  DenylistPattern.original dp = o →
  simulates o st1 st2 → simulates o st1 (Denylist.check_full_text c ft st2 dp).
Proof.
  intros Ho Hsim. rewrite check_full_text_eq.
  destruct (Re.search _ _) as [mo|]; [|exact Hsim].
  by apply remember_right.
Qed.

(** One loop over the patterns, with and without the appended pattern. *)
Lemma patterns_loop_simulates (step : Denylist.state → DenylistPattern.t → Denylist.state)
    o ps p st1 st2 :
  (∀ dp st1 st2, DenylistPattern.original dp ≠ o →
     simulates o st1 st2 → simulates o (step st1 dp) (step st2 dp)) →
  (∀ st1 st2, simulates o st1 st2 → simulates o st1 (step st2 p)) →
  (∀ q, q ∈ ps → DenylistPattern.original q ≠ o) →
  simulates o st1 st2 →
  simulates o (fold_left step ps st1) (fold_left step (ps ++ [p]) st2).
Proof.
  intros Hboth Hright. revert st1 st2.
  induction ps as [|q ps IH]; intros st1 st2 Hps Hsim.
  - simpl. by apply Hright.
  - simpl. apply IH.
    + intros q' Hq'. apply Hps. by right.
    + apply Hboth; [apply Hps; left|exact Hsim].
Qed.

Lemma fragment_pass_simulates o fragments ps p st1 st2 :
  DenylistPattern.original p = o →
  (∀ q, q ∈ ps → DenylistPattern.original q ≠ o) →
  simulates o st1 st2 →
  simulates o (Denylist.fragment_pass fragments ps st1)
              (Denylist.fragment_pass fragments (ps ++ [p]) st2).
Proof.
  intros Hp Hps. unfold Denylist.fragment_pass. revert st1 st2.
  induction fragments as [|f fragments IH]; intros st1 st2 Hsim; [exact Hsim|].
  simpl. apply IH. destruct (negb _); [exact Hsim|].
  apply patterns_loop_simulates; try done.
  - intros dp s1 s2. apply check_fragment_both.
  - intros s1 s2. by apply check_fragment_right.
Qed.

Lemma full_text_pass_simulates o c ps p st1 st2 :
  DenylistPattern.original p = o →
  (∀ q, q ∈ ps → DenylistPattern.original q ≠ o) →
  simulates o st1 st2 →
  simulates o (Denylist.full_text_pass c ps st1)
              (Denylist.full_text_pass c (ps ++ [p]) st2).
Proof.
  intros Hp Hps Hsim. unfold Denylist.full_text_pass.
  destruct (Py.truthy _); [|exact Hsim].
  apply patterns_loop_simulates; try done.
  - intros dp s1 s2. apply check_full_text_both.
  - intros s1 s2. by apply check_full_text_right.
Qed.

(** C10 (as stated) fails: the literal [a b] matches the second fragment and
    the match carries its location; once the regex [a b] is appended, the
    regex records the same key at the first fragment, and the match of the
    second fragment is no longer reported. *)
Lemma same_text_pattern_displaces_match :
  ∃ q p, DenylistPattern.from_string "a b" false = inr q
    ∧ DenylistPattern.from_string "a b" true = inr p
    ∧ ∃ m, Match.location m = Some "L2"
        ∧ m ∈ Denylist.check_corpus Examples.two_locations [q]
        ∧ m ∉ Denylist.check_corpus Examples.two_locations ([q] ++ [p]).
Proof.
  eexists. eexists.
  split; [apply from_string_literal|]. split; [reflexivity|].
  exists {| Match.pattern := "a b"; Match.text := "a b"; Match.source := "content";
            Match.page := Some 0%Z; Match.location := Some "L2" |}.
  split; [reflexivity|]. split.
  - vm_compute. right. left.
  - vm_compute. intros H.
    repeat (apply elem_of_cons in H as [H|H]; [discriminate H|]).
    by apply elem_of_nil in H.
Qed.

(** C10 (as amended): when the appended pattern's string differs from the
    string of every pattern already in the list, the old result is exactly
    the new result without the matches of the appended pattern, so every old
    match is still reported, unchanged and in the same order. *)
Theorem appending_fresh_pattern_keeps_matches (c : Corpus.t)
    (ps : list DenylistPattern.t) (p : DenylistPattern.t) :
  (∀ q, q ∈ ps → DenylistPattern.original q ≠ DenylistPattern.original p) →
  Denylist.check_corpus c ps
  = filter (fun m => Match.pattern m ≠ DenylistPattern.original p)
      (Denylist.check_corpus c (ps ++ [p]))
  ∧ ∀ m, m ∈ Denylist.check_corpus c ps → m ∈ Denylist.check_corpus c (ps ++ [p]).
Proof.
  intros Hps.
  assert (Hsim : simulates (DenylistPattern.original p)
            (Denylist.full_text_pass c ps
               (Denylist.fragment_pass (Corpus.fragments c) ps initial_state))
            (Denylist.full_text_pass c (ps ++ [p])
               (Denylist.fragment_pass (Corpus.fragments c) (ps ++ [p]) initial_state))).
  { apply full_text_pass_simulates; [reflexivity|exact Hps|].
    apply fragment_pass_simulates; [reflexivity|exact Hps|].
    split; [reflexivity|done]. }
  destruct Hsim as [Hms _].
  assert (Heq : Denylist.check_corpus c ps
                = filter (fun m => Match.pattern m ≠ DenylistPattern.original p)
                    (Denylist.check_corpus c (ps ++ [p]))) by exact Hms.
  split; [exact Heq|].
  intros m Hm. rewrite Heq in Hm. by apply list_elem_of_filter in Hm as [_ Hm].
Qed.

(** ** Attribution of spanning matches *)

Lemma take_drop (n : nat) (s : string) : Py.take n s +:+ Py.drop n s = s.
Proof.
  revert s. induction n as [|n IH]; intros s; [by destruct s|].
  destruct s as [|c s]; [reflexivity|]. simpl. by rewrite app_cons, IH.
Qed.

Lemma length_take (n : nat) (s : string) :
  n ≤ String.length s → String.length (Py.take n s) = n.
Proof.
  revert s. induction n as [|n IH]; intros s Hn; [by destruct s|].
  destruct s as [|c s]; simpl in *; [lia|]. rewrite IH; lia.
Qed.

Lemma length_drop (n : nat) (s : string) :
  String.length (Py.drop n s) = String.length s - n.
Proof.
  revert s. induction n as [|n IH]; intros s; [destruct s; simpl; lia|].
  destruct s as [|c s]; [reflexivity|]. simpl. apply IH.
Qed.

Lemma drop_app_length (pre x : string) : Py.drop (String.length pre) (pre +:+ x) = x.
Proof.
  induction pre as [|c pre IH]; [by destruct x|]. rewrite app_cons. simpl. exact IH.
Qed.

Lemma take_app_length (u post : string) : Py.take (String.length u) (u +:+ post) = u.
Proof.
  induction u as [|c u IH]; [by destruct post|]. rewrite app_cons. simpl. by rewrite IH.
Qed.

(** The scan over the three-character windows of the matched text. *)
Lemma trigram_scan (m f : string) :
  3 ≤ String.length m →
  existsb (fun i => Py.contains (Py.take 3 (Py.drop i m)) f)
    (seq 0 (String.length m - 2)) = true
  ↔ ∃ u, String.length u = 3 ∧ occurs u m ∧ occurs u f.
Proof.
  intros Hlen. rewrite existsb_exists. split.
  - intros (i & Hi & Hc). apply in_seq in Hi.
    exists (Py.take 3 (Py.drop i m)). split; [|split].
    + apply length_take. rewrite length_drop. lia.
    + exists (Py.take i m), (Py.drop 3 (Py.drop i m)).
      by rewrite take_drop, take_drop.
    + by apply contains_spec.
  - intros (u & Hu & (pre & post & Hm) & Hf).
    exists (String.length pre). split.
    + apply in_seq. rewrite Hm, !length_app_str. lia.
    + rewrite Hm, drop_app_length, <- Hu, take_app_length. by apply contains_spec.
Qed.

Lemma contributing_spec (matched_text : string) (f : TextFragment.t) :
  contributing matched_text f ↔ qualifies matched_text f.
Proof.
  unfold contributing, qualifies, shares_trigram, Denylist.contributes.
  rewrite !andb_true_iff, truthy_true, Nat.ltb_lt.
  split.
  - intros (Ht & Hlen & Hscan). apply trigram_scan in Hscan; [|lia]. done.
  - intros (Ht & Hlen & Hshare).
    split; [exact Ht|]. split; [exact Hlen|].
    apply trigram_scan; [lia|exact Hshare].
Qed.

Lemma contributing_set_spec (matched_text : string) (fragments : list TextFragment.t) :
  qualifying_sources fragments matched_text (contributing_set matched_text fragments).
Proof.
  intros src. unfold contributing_set.
  rewrite elem_of_list_to_set, list_elem_of_fmap. split.
  - intros (f & -> & Hf). apply list_elem_of_filter in Hf as [Hc Hf].
    exists f. split; [exact Hf|]. split; [reflexivity|]. by apply contributing_spec.
  - intros (f & Hf & <- & Hq). exists f. split; [reflexivity|].
    apply list_elem_of_filter. split; [by apply contributing_spec|exact Hf].
Qed.

Lemma attribute_step_eq (matched_text : string) (acc : string * gset string)
    (f : TextFragment.t) :
  Denylist.attribute_step matched_text acc f
  = if decide (contributing matched_text f)
    then (TextFragment.source f, {[ TextFragment.source f ]} ∪ acc.2)
    else acc.
Proof.
  unfold Denylist.attribute_step.
  destruct (decide (contributing matched_text f)) as [Hc|Hc]; unfold contributing in Hc.
  - by rewrite Hc.
  - by apply not_true_is_false in Hc as ->.
Qed.

(** The attribution loop ends with the set of all contributing sources and,
    when there is one, a contributing source. *)
Lemma attribute_fold (matched_text : string) (fragments : list TextFragment.t)
    (src : string) (Q : gset string) :
  ∃ src', fold_left (Denylist.attribute_step matched_text) fragments (src, Q)
          = (src', Q ∪ contributing_set matched_text fragments)
    ∧ ((src' = src ∧ contributing_set matched_text fragments = ∅)
       ∨ src' ∈ contributing_set matched_text fragments).
Proof.
  revert src Q. induction fragments as [|f fragments IH]; intros src Q.
  - exists src. split; [|by left]. simpl. f_equal. unfold contributing_set. simpl.
    by rewrite (right_id_L ∅ (∪)).
  - simpl fold_left. rewrite attribute_step_eq. unfold contributing_set.
    destruct (decide (contributing matched_text f)) as [Hc|Hc].
    + rewrite filter_cons_True by exact Hc. simpl.
      destruct (IH (TextFragment.source f) ({[TextFragment.source f]} ∪ Q))
        as (src' & -> & Hsrc).
      exists src'. split.
      * f_equal. unfold contributing_set.
        by rewrite (comm_L (∪) {[TextFragment.source f]} Q), <- (assoc_L (∪)).
      * right. apply elem_of_union.
        destruct Hsrc as [[-> _]|Hin]; [left; by apply elem_of_singleton|by right].
    + rewrite filter_cons_False by exact Hc.
      destruct (IH src Q) as (src' & -> & Hsrc). exists src'. by split.
Qed.

Lemma string_le_total : Total String.le.
Proof.
  intros x y. unfold String.le.
  destruct (String.leb_total x y) as [H|H]; rewrite H; [by left|by right].
Qed.

Lemma spanning_source_attributed (fragments : list TextFragment.t) (matched_text : string) :
  attributed fragments matched_text (Denylist.spanning_source fragments matched_text).
Proof.
  exists (contributing_set matched_text fragments).
  split; [apply contributing_set_spec|].
  unfold Denylist.spanning_source.
  destruct (attribute_fold matched_text fragments "multiple_sources" ∅)
    as (src' & -> & Hsrc).
  rewrite (left_id_L ∅ (∪)).
  split; [|split].
  - intros HQ. rewrite HQ in *. rewrite size_empty. simpl.
    destruct Hsrc as [[-> _]|Hin]; [reflexivity|by apply elem_of_empty in Hin].
  - intros x HQ. rewrite HQ in *. rewrite size_singleton. simpl.
    destruct Hsrc as [[_ He]|Hin]; [|by apply elem_of_singleton in Hin].
    exfalso. assert (Hx : x ∈ (∅ : gset string)) by (rewrite <- He; by apply elem_of_singleton).
    by apply elem_of_empty in Hx.
  - intros Hsize. apply Nat.ltb_lt in Hsize. rewrite Hsize.
    exists (Denylist.sorted (contributing_set matched_text fragments)).
    split; [reflexivity|]. unfold Denylist.sorted. split.
    + apply Sorted_merge_sort, string_le_total.
    + apply merge_sort_Permutation.
Qed.

(** What the full-text pass appends has the shape of a spanning match. *)
Lemma full_text_pass_appends (c : Corpus.t) (ps : list DenylistPattern.t)
    (st : Denylist.state) :
  ∃ extra, Denylist.matches (Denylist.full_text_pass c ps st)
           = Denylist.matches st ++ extra
    ∧ ∀ m, m ∈ extra → spanning_shape c m.
Proof.
  unfold Denylist.full_text_pass. destruct (Py.truthy _).
  - revert st. induction ps as [|p ps IH]; intros st.
    + exists []. split; [by rewrite app_nil_r|]. intros m Hm. by apply elem_of_nil in Hm.
    + simpl fold_left. rewrite check_full_text_eq.
      destruct (Re.search _ _) as [mo|]; [|apply IH].
      unfold remember. case_decide; [apply IH|].
      destruct (IH {| Denylist.matches := Denylist.matches st ++
                        [spanning_match c p (Re.group0 mo)];
                      Denylist.seen_matches :=
                        {[full_text_key p (Re.group0 mo)]} ∪ Denylist.seen_matches st |})
        as (extra & -> & Hshape).
      exists (spanning_match c p (Re.group0 mo) :: extra). simpl.
      split; [by rewrite <- app_assoc|].
      intros m Hm. apply elem_of_cons in Hm as [->|Hm]; [|by apply Hshape].
      split; [reflexivity|]. split; [reflexivity|]. apply spanning_source_attributed.
  - exists []. split; [by rewrite app_nil_r|]. intros m Hm. by apply elem_of_nil in Hm.
Qed.

(** C7 (as stated) fails: the matched text [abc] and the only fragment share
    three characters, so exactly one source, [content], qualifies in the
    claim's words; the source reported is [multiple_sources]. *)
Lemma short_match_not_attributed :
  ∃ p, DenylistPattern.from_string "abc" false = inr p
    ∧ ∃ m, m ∈ Denylist.check_corpus Examples.short_fragment [p]
        ∧ Match.location m = Some "spanning_multiple_fragments"
        ∧ Match.source m = "multiple_sources"
        ∧ ∀ f, f ∈ Corpus.fragments Examples.short_fragment →
            TextFragment.source f = "content"
            ∧ qualifies_as_claimed (Match.text m) f.
Proof.
  eexists. split; [apply from_string_literal|].
  exists {| Match.pattern := "abc"; Match.text := "abc";
            Match.source := "multiple_sources"; Match.page := None;
            Match.location := Some "spanning_multiple_fragments" |}.
  split; [vm_compute; right; left|].
  split; [reflexivity|]. split; [reflexivity|].
  intros f Hf. apply list_elem_of_singleton in Hf as ->.
  split; [reflexivity|]. exists "abc". simpl.
  split; [lia|]. split; exists "", ""; reflexivity.
Qed.

(** C7 (as amended): every match the full-text pass appends has location
    [spanning_multiple_fragments], no page, and as source: the one
    qualifying source when exactly one source qualifies, the label listing
    the qualifying sources in ascending order when several do, and
    [multiple_sources] when none does.  A fragment qualifies only when the
    lower-cased matched text has more than three characters and shares three
    consecutive characters with the lower-cased text of the fragment. *)
Theorem spanning_matches_have_shape (c : Corpus.t) (ps : list DenylistPattern.t) :
  ∃ extra,
    Denylist.check_corpus c ps
    = Denylist.matches (Denylist.fragment_pass (Corpus.fragments c) ps initial_state)
      ++ extra
    ∧ ∀ m, m ∈ extra → spanning_shape c m.
Proof. apply full_text_pass_appends. Qed.

(** ** Loading the denylist file *)

Lemma from_string_with_regex (re_compile : compiler) (s : string) :
  DenylistPattern.from_string_with re_compile s true
  = match re_compile s Re.IGNORECASE_MULTILINE with
    | DenylistPattern.Compiled compiled =>
        inr {| DenylistPattern.pattern := compiled;
               DenylistPattern.original := s;
               DenylistPattern.is_regex := true |}
    | DenylistPattern.ReErrorRaised e =>
        inl (ValueError ("Invalid regex pattern '" +:+ s +:+ "': " +:+ e))
    | DenylistPattern.OtherRaised e => inl e
    end.
Proof. reflexivity. Qed.

Lemma load_lines_cons re_compile raw rest line_num patterns :
  Denylist.load_lines re_compile (raw :: rest) line_num patterns
  = match classify raw with
    | Ignored => Denylist.load_lines re_compile rest (S line_num) patterns
    | RegexLine regex_str =>
        match DenylistPattern.from_string_with re_compile regex_str true with
        | inl (ValueError e) =>
            inl (ValueError ("Invalid regex on line " +:+ Py.str_of_nat line_num
                             +:+ ": " +:+ e))
        | inl e => inl e
        | inr dp => Denylist.load_lines re_compile rest (S line_num) (patterns ++ [dp])
        end
    | LiteralLine phrase =>
        match DenylistPattern.from_string_with re_compile phrase false with
        | inl e => inl e
        | inr dp => Denylist.load_lines re_compile rest (S line_num) (patterns ++ [dp])
        end
    end.
Proof.
  unfold classify. simpl Denylist.load_lines.
  destruct (negb _ || _); [reflexivity|].
  destruct (Py.startswith "regex:" _); [|reflexivity].
  destruct (Py.truthy _); reflexivity.
Qed.

(** Lines that compile are read through: their patterns are appended and the
    line count moves on. *)
Lemma load_lines_prefix re_compile before rest line_num patterns :
  Forall (line_compiles re_compile) before →
  Denylist.load_lines re_compile (before ++ rest) line_num patterns
  = Denylist.load_lines re_compile rest (line_num + length before)
      (patterns ++ omap (line_pattern re_compile) before).
Proof.
  revert line_num patterns.
  induction before as [|raw before IH]; intros line_num patterns Hall.
  - simpl. by rewrite Nat.add_0_r, app_nil_r.
  - apply Forall_cons in Hall as [Hraw Hall]. specialize (IH (S line_num)).
    simpl app. rewrite load_lines_cons. simpl omap.
    replace (line_num + length (raw :: before)) with (S line_num + length before)
      by (simpl; lia).
    unfold line_pattern, line_compiles in *.
    destruct (classify raw) as [|regex_str|phrase].
    + by apply IH.
    + destruct Hraw as [compiled Hc]. rewrite from_string_with_regex, Hc.
      rewrite IH by exact Hall. by rewrite <- app_assoc.
    + rewrite from_string_with_literal, IH by exact Hall. by rewrite <- app_assoc.
Qed.

Lemma load_lines_ok re_compile lines line_num patterns :
  Forall (line_compiles re_compile) lines →
  Denylist.load_lines re_compile lines line_num patterns
  = inr (patterns ++ omap (line_pattern re_compile) lines).
Proof.
  intros Hall. rewrite <- (app_nil_r lines) at 1.
  by rewrite load_lines_prefix.
Qed.





Lemma sample_lines_compile : Forall (line_compiles sample_compile) sample_lines.
Proof.
  unfold sample_lines. repeat apply Forall_cons_2; try apply Forall_nil_2;
    try exact I.
  vm_compute. eexists. reflexivity.
Qed.


Lemma appending_fresh_pattern_keeps_matches_witness :
  Denylist.check_corpus split_name [literal_pattern "john"]
  = filter (fun m => Match.pattern m ≠ "smith")
      (Denylist.check_corpus split_name ([literal_pattern "john"] ++ [literal_pattern "smith"]))
  ∧ ∀ m, m ∈ Denylist.check_corpus split_name [literal_pattern "john"] →
         m ∈ Denylist.check_corpus split_name
               ([literal_pattern "john"] ++ [literal_pattern "smith"]).
Proof.
  apply (appending_fresh_pattern_keeps_matches split_name
           [literal_pattern "john"] (literal_pattern "smith")).
  intros q Hq. apply list_elem_of_singleton in Hq as ->. discriminate.
Defined.

(** * Further properties of the code *)

(** ** The loops of [check_corpus] *)

Lemma check_fragment_record f st dp :
  Denylist.check_fragment f st dp = record_hit (fragment_find f) st dp.
Proof.
  rewrite check_fragment_eq. unfold record_hit, fragment_find.
  by destruct (Re.search _ _).
Qed.

Lemma check_full_text_record c st dp :
  Denylist.check_full_text c (Corpus.full_text c) st dp
  = record_hit (full_text_find c) st dp.
Proof.
  rewrite check_full_text_eq. unfold record_hit, full_text_find.
  by destruct (Re.search _ _).
Qed.

Lemma fragment_pass_cons f fragments ps st :
  Denylist.fragment_pass (f :: fragments) ps st
  = Denylist.fragment_pass fragments ps
      (if negb (Py.truthy (TextFragment.text f)) then st
       else fold_left (record_hit (fragment_find f)) ps st).
Proof.
  unfold Denylist.fragment_pass. simpl. f_equal.
  destruct (negb _); [reflexivity|].
  revert st. induction ps as [|p ps IH]; intros st; [reflexivity|].
  simpl. rewrite check_fragment_record. apply IH.
Qed.

Lemma full_text_pass_eq c ps st :
  Denylist.full_text_pass c ps st
  = if Py.truthy (Corpus.full_text c)
    then fold_left (record_hit (full_text_find c)) ps st
    else st.
Proof.
  unfold Denylist.full_text_pass. destruct (Py.truthy _); [|reflexivity].
  revert st. induction ps as [|p ps IH]; intros st; [reflexivity|].
  simpl. rewrite check_full_text_record. apply IH.
Qed.

Lemma extends_refl st : extends st st.
Proof. split; [done|]. exists []. by rewrite app_nil_r. Qed.

Lemma extends_trans st1 st2 st3 : extends st1 st2 → extends st2 st3 → extends st1 st3.
Proof.
  intros [Hs1 [e1 He1]] [Hs2 [e2 He2]]. split; [by etrans|].
  exists (e1 ++ e2). by rewrite He2, He1, app_assoc.
Qed.

Lemma extends_remember k m st : extends st (remember k m st).
Proof.
  unfold remember. case_decide; [apply extends_refl|].
  split; simpl; [apply union_subseteq_r|by eexists].
Qed.

Lemma remember_seen k m st : k ∈ Denylist.seen_matches (remember k m st).
Proof.
  unfold remember. case_decide; [done|]. simpl.
  apply elem_of_union. left. by apply elem_of_singleton.
Qed.

Lemma extends_record_hit find st dp : extends st (record_hit find st dp).
Proof.
  unfold record_hit. destruct (find dp) as [[k m]|];
    [apply extends_remember|apply extends_refl].
Qed.

Lemma extends_record_loop find ps st : extends st (fold_left (record_hit find) ps st).
Proof.
  revert st. induction ps as [|p ps IH]; intros st; [apply extends_refl|].
  simpl. eapply extends_trans; [apply extends_record_hit|apply IH].
Qed.

Lemma extends_fragment_pass fragments ps st :
  extends st (Denylist.fragment_pass fragments ps st).
Proof.
  revert st. induction fragments as [|f fragments IH]; intros st; [apply extends_refl|].
  rewrite fragment_pass_cons. eapply extends_trans; [|apply IH].
  destruct (negb _); [apply extends_refl|apply extends_record_loop].
Qed.

Lemma extends_full_text_pass c ps st : extends st (Denylist.full_text_pass c ps st).
Proof.
  rewrite full_text_pass_eq. destruct (Py.truthy _);
    [apply extends_record_loop|apply extends_refl].
Qed.

Lemma extends_elem_of st st' m :
  extends st st' → m ∈ Denylist.matches st → m ∈ Denylist.matches st'.
Proof. intros [_ [extra ->]] Hm. apply elem_of_app. by left. Qed.

(** After the loop over the patterns the key of every hit is seen. *)
Lemma record_loop_seen find ps st dp k m :
  dp ∈ ps → find dp = Some (k, m) →
  k ∈ Denylist.seen_matches (fold_left (record_hit find) ps st).
Proof.
  revert st. induction ps as [|p ps IH]; intros st Hdp Hfind.
  - by apply elem_of_nil in Hdp.
  - simpl. apply elem_of_cons in Hdp as [<-|Hdp]; [|by apply IH].
    destruct (extends_record_loop find ps (record_hit find st dp)) as [Hsub _].
    apply Hsub. unfold record_hit. rewrite Hfind. apply remember_seen.
Qed.

(** Where the matches of a loop over the patterns come from. *)
Lemma record_loop_origin find ps st m :
  m ∈ Denylist.matches (fold_left (record_hit find) ps st) →
  m ∈ Denylist.matches st ∨ ∃ dp k, dp ∈ ps ∧ find dp = Some (k, m).
Proof.
  revert st. induction ps as [|p ps IH]; intros st Hm; [by left|].
  simpl in Hm. apply IH in Hm as [Hm|(dp & k & Hdp & Hf)].
  - unfold record_hit in Hm. destruct (find p) as [[k m']|] eqn:Hf; [|by left].
    unfold remember in Hm. case_decide; [by left|]. simpl in Hm.
    apply elem_of_app in Hm as [Hm|Hm]; [by left|].
    apply list_elem_of_singleton in Hm as ->. right. exists p, k. split; [left|done].
  - right. exists dp, k. split; [by right|done].
Qed.

Lemma fragment_pass_origin fragments ps st m :
  m ∈ Denylist.matches (Denylist.fragment_pass fragments ps st) →
  m ∈ Denylist.matches st
  ∨ ∃ f dp k, f ∈ fragments ∧ TextFragment.text f ≠ "" ∧ dp ∈ ps
              ∧ fragment_find f dp = Some (k, m).
Proof.
  revert st. induction fragments as [|f fragments IH]; intros st Hm; [by left|].
  rewrite fragment_pass_cons in Hm. apply IH in Hm as [Hm|(f' & dp & k & Hf' & Hrest)].
  - destruct (Py.truthy (TextFragment.text f)) eqn:Ht; simpl in Hm; [|by left].
    apply record_loop_origin in Hm as [Hm|(dp & k & Hdp & Hfind)]; [by left|].
    right. exists f, dp, k. split; [left|]. split; [by apply truthy_true|done].
  - right. exists f', dp, k. split; [by right|exact Hrest].
Qed.

Lemma fragment_pass_seen fragments ps st f dp k m :
  f ∈ fragments → TextFragment.text f ≠ "" → dp ∈ ps →
  fragment_find f dp = Some (k, m) →
  k ∈ Denylist.seen_matches (Denylist.fragment_pass fragments ps st).
Proof.
  intros Hf Ht Hdp Hfind. revert st.
  induction fragments as [|f' fragments IH]; intros st; [by apply elem_of_nil in Hf|].
  rewrite fragment_pass_cons. apply elem_of_cons in Hf as [<-|Hf]; [|by apply IH].
  apply truthy_true in Ht. rewrite Ht. simpl.
  destruct (extends_fragment_pass fragments ps
              (fold_left (record_hit (fragment_find f)) ps st)) as [Hsub _].
  apply Hsub. by eapply record_loop_seen.
Qed.

Lemma fragment_hit_recorded (c : Corpus.t) (ps : list DenylistPattern.t)
    (dp : DenylistPattern.t) (f : TextFragment.t) (mo : Re.re_match) :
  dp ∈ ps → hits_fragment c dp f mo →
  ∃ m, m ∈ Denylist.check_corpus c ps
    ∧ Match.pattern m = DenylistPattern.original dp
    ∧ Match.source m = TextFragment.source f
    ∧ Match.page m = TextFragment.page f
    ∧ Match.text m = Re.group0 mo.
Proof.
  intros Hdp (Hf & Ht & Hs).
  assert (Hfind : fragment_find f dp
            = Some (fragment_key f dp (Re.group0 mo), fragment_match f dp (Re.group0 mo))).
  { unfold fragment_find. by rewrite Hs. }
  pose proof (fragment_pass_seen (Corpus.fragments c) ps initial_state _ _ _ _
                Hf Ht Hdp Hfind) as Hseen.
  destruct (fragment_pass_keys_recorded (Corpus.fragments c) ps _ Hseen)
    as (m & _ & Hm & Htuple & _).
  exists m. split.
  - unfold Denylist.check_corpus. eapply extends_elem_of; [|exact Hm].
    apply extends_full_text_pass.
  - unfold tuple_of, fragment_key in Htuple. by inversion Htuple.
Qed.

(** X1: no source is exempt.  Whenever a pattern of the list matches the
    text of a non-empty fragment, [check_corpus] reports a match with that
    pattern, the source and page of the fragment, and the matched text. *)
Theorem every_fragment_hit_is_reported (c : Corpus.t) (ps : list DenylistPattern.t)
    (dp : DenylistPattern.t) (f : TextFragment.t) (mo : Re.re_match) :
  dp ∈ ps → hits_fragment c dp f mo →
  ∃ m, m ∈ Denylist.check_corpus c ps
    ∧ Match.pattern m = DenylistPattern.original dp
    ∧ Match.source m = TextFragment.source f
    ∧ Match.page m = TextFragment.page f
    ∧ Match.text m = Re.group0 mo.
Proof. apply fragment_hit_recorded. Qed.

Lemma every_fragment_hit_is_reported_witness :
  ∃ m, m ∈ Denylist.check_corpus Examples.metadata_only [literal_pattern "secret"]
    ∧ Match.pattern m = "secret"
    ∧ Match.source m = "metadata"
    ∧ Match.page m = None
    ∧ Match.text m = "secret".
Proof.
  destruct (Re.search (DenylistPattern.pattern (literal_pattern "secret"))
              "the secret data") as [mo|] eqn:Hs; [|vm_compute in Hs; discriminate Hs].
  assert (Hg : Re.group0 mo = "secret").
  { vm_compute in Hs. by inversion Hs. }
  destruct (every_fragment_hit_is_reported Examples.metadata_only
              [literal_pattern "secret"] (literal_pattern "secret")
              (Examples.frag "the secret data" "metadata" None (Some "meta:title")) mo)
    as (m & Hm & Hpat & Hsrc & Hpage & Htext).
  - left.
  - split; [left|]. split; [discriminate|exact Hs].
  - exists m. rewrite Hg in Htext. by repeat split.
Defined.

(** X2: a literal phrase that occurs verbatim in a non-empty fragment is
    reported with the source and page of that fragment, and [verify]
    returns FAIL. *)
Theorem literal_in_fragment_is_reported (c : Corpus.t) (ps : list DenylistPattern.t)
    (s : string) (f : TextFragment.t) :
  literal_pattern s ∈ ps →
  f ∈ Corpus.fragments c → TextFragment.text f ≠ "" →
  occurs s (TextFragment.text f) →
  (∃ m, m ∈ Denylist.check_corpus c ps
      ∧ Match.pattern m = s
      ∧ Match.source m = TextFragment.source f
      ∧ Match.page m = TextFragment.page f)
  ∧ ∀ fitz_open pdf_path strict ocr_mode,
      Extractors.extract_all fitz_open pdf_path strict ocr_mode = inr c →
      VerifyResult.exit_code (Core.verify fitz_open pdf_path (Some ps) strict ocr_mode)
      = FAIL.
Proof.
  intros Hp Hf Ht Hocc.
  destruct (search_literal_occurs s _ Hocc) as [mo Hmo].
  destruct (fragment_hit_recorded c ps (literal_pattern s) f mo Hp)
    as (m & Hm & Hpat & Hsrc & Hpage & _); [done|].
  split; [by exists m|].
  intros fitz_open pdf_path strict ocr_mode He.
  rewrite (verify_on_success _ _ _ _ _ _ He). simpl.
  destruct ps as [|p ps]; [by apply elem_of_nil in Hp|].
  destruct (Denylist.check_corpus c (p :: ps)); [by apply elem_of_nil in Hm|reflexivity].
Qed.

Lemma literal_in_fragment_is_reported_witness :
  ∃ m, m ∈ Denylist.check_corpus split_name [literal_pattern "Smith"]
    ∧ Match.pattern m = "Smith"
    ∧ Match.source m = "annotation"
    ∧ Match.page m = Some 1%Z.
Proof.
  apply (literal_in_fragment_is_reported split_name [literal_pattern "Smith"] "Smith"
           (Examples.frag "Smith was here" "annotation" (Some 1%Z) None)).
  - left.
  - right. left.
  - discriminate.
  - exists "", " was here". reflexivity.
Defined.

Lemma match_origin (c : Corpus.t) (ps : list DenylistPattern.t) (m : Match.t) :
  m ∈ Denylist.check_corpus c ps →
  (∃ dp f mo, dp ∈ ps ∧ hits_fragment c dp f mo
              ∧ m = fragment_match f dp (Re.group0 mo))
  ∨ (∃ dp mo, dp ∈ ps ∧ hits_full_text c dp mo
              ∧ m = spanning_match c dp (Re.group0 mo)).
Proof.
  unfold Denylist.check_corpus. rewrite full_text_pass_eq. intros Hm.
  assert (Hfrag : m ∈ fragment_matches c ps →
            ∃ dp f mo, dp ∈ ps ∧ hits_fragment c dp f mo
                       ∧ m = fragment_match f dp (Re.group0 mo)).
  { intros Hf. apply fragment_pass_origin in Hf as [Hf|(f & dp & k & Hf & Ht & Hdp & Hfind)].
    - by apply elem_of_nil in Hf.
    - unfold fragment_find in Hfind.
      destruct (Re.search _ _) as [mo|] eqn:Hs; [|discriminate].
      inversion Hfind. exists dp, f, mo. by repeat split. }
  destruct (Py.truthy (Corpus.full_text c)) eqn:Hft; [|left; by apply Hfrag].
  apply record_loop_origin in Hm as [Hm|(dp & k & Hdp & Hfind)]; [left; by apply Hfrag|].
  right. unfold full_text_find in Hfind.
  destruct (Re.search _ _) as [mo|] eqn:Hs; [|discriminate].
  inversion Hfind. exists dp, mo. split; [done|]. split; [|done].
  split; [by apply truthy_true|done].
Qed.

(** X3: nothing is invented.  Every match [check_corpus] reports is the
    match of a pattern of the list in a non-empty fragment, carrying the
    source, page and location of that fragment, or the match of a pattern
    of the list in the non-empty full text. *)
Theorem every_match_is_a_hit (c : Corpus.t) (ps : list DenylistPattern.t) (m : Match.t) :
  m ∈ Denylist.check_corpus c ps →
  (∃ dp f mo, dp ∈ ps ∧ hits_fragment c dp f mo
              ∧ m = fragment_match f dp (Re.group0 mo))
  ∨ (∃ dp mo, dp ∈ ps ∧ hits_full_text c dp mo
              ∧ m = spanning_match c dp (Re.group0 mo)).
Proof. apply match_origin. Qed.

Lemma every_match_is_a_hit_witness :
  (∃ dp f mo, dp ∈ [literal_pattern "secret"]
      ∧ hits_fragment Examples.metadata_only dp f mo
      ∧ Match.mk "secret" "secret" "metadata" None (Some "meta:title")
        = fragment_match f dp (Re.group0 mo))
  ∨ (∃ dp mo, dp ∈ [literal_pattern "secret"]
      ∧ hits_full_text Examples.metadata_only dp mo
      ∧ Match.mk "secret" "secret" "metadata" None (Some "meta:title")
        = spanning_match Examples.metadata_only dp (Re.group0 mo)).
Proof.
  apply (every_match_is_a_hit Examples.metadata_only [literal_pattern "secret"]).
  vm_compute. left.
Defined.

Lemma fragment_pass_blank fragments ps st :
  Forall (fun f => TextFragment.text f = "") fragments →
  Denylist.fragment_pass fragments ps st = st.
Proof.
  revert st. induction fragments as [|f fragments IH]; intros st Hall; [reflexivity|].
  apply Forall_cons in Hall as [Hf Hall].
  rewrite fragment_pass_cons, Hf. simpl. by apply IH.
Qed.

Lemma fragment_pass_no_patterns fragments st :
  Denylist.fragment_pass fragments [] st = st.
Proof.
  revert st. induction fragments as [|f fragments IH]; intros st; [reflexivity|].
  rewrite fragment_pass_cons. simpl. destruct (negb _); apply IH.
Qed.

Lemma full_text_blank (c : Corpus.t) :
  Forall (fun f => TextFragment.text f = "") (Corpus.fragments c) →
  Corpus.full_text c = "".
Proof.
  intros Hall. rewrite full_text_unfold. unfold nonempty_texts.
  induction (Corpus.fragments c) as [|f fs IH]; [reflexivity|].
  apply Forall_cons in Hall as [Hf Hall]. simpl.
  rewrite filter_cons_False by (intros Hne; by apply Hne). by apply IH.
Qed.

Lemma check_corpus_nothing (c : Corpus.t) (ps : list DenylistPattern.t) :
  ps = [] ∨ Forall (fun f => TextFragment.text f = "") (Corpus.fragments c) →
  Denylist.check_corpus c ps = [].
Proof.
  intros [->|Hall]; unfold Denylist.check_corpus.
  - rewrite fragment_pass_no_patterns, full_text_pass_eq.
    by destruct (Py.truthy _).
  - rewrite fragment_pass_blank by exact Hall.
    rewrite full_text_pass_eq, (full_text_blank c Hall). reflexivity.
Qed.

(** X4: with an empty pattern list, and for a corpus in which every
    fragment has an empty text (or that has no fragment at all), whatever
    the patterns, even patterns that match the empty string,
    [check_corpus] reports nothing. *)
Theorem nothing_to_report (c : Corpus.t) (ps : list DenylistPattern.t) :
  ps = [] ∨ Forall (fun f => TextFragment.text f = "") (Corpus.fragments c) →
  Denylist.check_corpus c ps = [].
Proof. apply check_corpus_nothing. Qed.

Lemma nothing_to_report_witness :
  Denylist.check_corpus blank_corpus [literal_pattern ""] = [].
Proof.
  apply (nothing_to_report blank_corpus [literal_pattern ""]).
  right. repeat constructor.
Defined.

(** ** De-duplication *)

Lemma distinct_after_remember g base k m st :
  g m = k → distinct_after g base st → distinct_after g base (remember k m st).
Proof.
  intros Hg (added & Hms & Hnd & Hseen). unfold remember.
  case_decide as Hk; [by exists added|].
  exists (added ++ [m]). simpl. split; [by rewrite Hms, app_assoc|]. split.
  - rewrite map_app. simpl. apply NoDup_app. split; [exact Hnd|]. split.
    + intros x Hx Hx'. apply list_elem_of_singleton in Hx' as ->.
      apply list_elem_of_fmap in Hx as (m' & Hm' & Hin).
      apply Hk. rewrite <- Hg, Hm'. by apply Hseen.
    + apply NoDup_singleton.
  - intros m' Hm'. apply elem_of_union.
    apply elem_of_app in Hm' as [Hm'|Hm'].
    + right. by apply Hseen.
    + left. apply list_elem_of_singleton in Hm' as ->. by apply elem_of_singleton.
Qed.

Lemma distinct_after_record_loop g base find ps st :
  (∀ dp k m, find dp = Some (k, m) → g m = k) →
  distinct_after g base st →
  distinct_after g base (fold_left (record_hit find) ps st).
Proof.
  intros Hfind. revert st. induction ps as [|p ps IH]; intros st Hst; [exact Hst|].
  simpl. apply IH. unfold record_hit.
  destruct (find p) as [[k m]|] eqn:Hf; [|exact Hst].
  apply distinct_after_remember; [by eapply Hfind|exact Hst].
Qed.

Lemma fragment_find_key f dp k m : fragment_find f dp = Some (k, m) → tuple_of m = k.
Proof.
  unfold fragment_find. destruct (Re.search _ _); [|discriminate].
  by intros [= <- <-].
Qed.

Lemma full_text_find_key c dp k m :
  full_text_find c dp = Some (k, m) → spanning_key_of m = k.
Proof.
  unfold full_text_find. destruct (Re.search _ _); [|discriminate].
  by intros [= <- <-].
Qed.

Lemma distinct_after_fragment_pass fragments ps st :
  distinct_after tuple_of [] st →
  distinct_after tuple_of [] (Denylist.fragment_pass fragments ps st).
Proof.
  revert st. induction fragments as [|f fragments IH]; intros st Hst; [exact Hst|].
  rewrite fragment_pass_cons. apply IH. destruct (negb _); [exact Hst|].
  apply distinct_after_record_loop; [apply fragment_find_key|exact Hst].
Qed.

Lemma check_corpus_unfold (c : Corpus.t) (ps : list DenylistPattern.t) :
  Denylist.check_corpus c ps
  = Denylist.matches
      (Denylist.full_text_pass c ps
         (Denylist.fragment_pass (Corpus.fragments c) ps initial_state)).
Proof. reflexivity. Qed.

Lemma check_corpus_split (c : Corpus.t) (ps : list DenylistPattern.t) :
  Denylist.check_corpus c ps = fragment_matches c ps ++ spanning_matches c ps.
Proof.
  unfold spanning_matches.
  destruct (extends_full_text_pass c ps
              (Denylist.fragment_pass (Corpus.fragments c) ps initial_state))
    as [_ [extra Hextra]].
  rewrite check_corpus_unfold, Hextra. unfold fragment_matches.
  by rewrite list.drop_app_length.
Qed.

(** X5: what de-duplication does guarantee.  The matches of the fragment
    pass come first and no two of them share pattern, source, page and
    matched text; the matches the full-text pass appends follow and no two
    of them share pattern and matched text. *)
Theorem matches_are_distinct_within_each_pass (c : Corpus.t)
    (ps : list DenylistPattern.t) :
  Denylist.check_corpus c ps = fragment_matches c ps ++ spanning_matches c ps
  ∧ NoDup (map tuple_of (fragment_matches c ps))
  ∧ NoDup (map (fun m => (Match.pattern m, Match.text m)) (spanning_matches c ps)).
Proof.
  split; [apply check_corpus_split|]. split.
  - destruct (distinct_after_fragment_pass (Corpus.fragments c) ps initial_state)
      as (added & Hms & Hnd & _).
    { exists []. split; [reflexivity|]. split; [constructor|].
      intros m Hm. by apply elem_of_nil in Hm. }
    unfold fragment_matches. rewrite Hms. exact Hnd.
  - assert (Hd : distinct_after spanning_key_of (fragment_matches c ps)
              (Denylist.full_text_pass c ps
                 (Denylist.fragment_pass (Corpus.fragments c) ps initial_state))).
    { rewrite full_text_pass_eq.
      assert (H0 : distinct_after spanning_key_of (fragment_matches c ps)
                (Denylist.fragment_pass (Corpus.fragments c) ps initial_state)).
      { exists []. split; [by rewrite app_nil_r|]. split; [constructor|].
        intros m Hm. by apply elem_of_nil in Hm. }
      destruct (Py.truthy _); [|exact H0].
      apply distinct_after_record_loop; [apply full_text_find_key|exact H0]. }
    destruct Hd as (added & Hms & Hnd & _).
    assert (Hadded : spanning_matches c ps = added).
    { unfold spanning_matches. rewrite check_corpus_unfold, Hms.
      by rewrite list.drop_app_length. }
    rewrite Hadded.
    apply (NoDup_fmap_1 (fun '(a, b) => (a, "full_text", None, b) : Denylist.match_key)).
    rewrite <- list_fmap_compose. exact Hnd.
Qed.

(** ** Repeating a pattern *)

Lemma record_loop_absorbs find ps p st :
  p ∈ ps →
  fold_left (record_hit find) (ps ++ [p]) st = fold_left (record_hit find) ps st.
Proof.
  intros Hp. rewrite fold_left_app. simpl. unfold record_hit at 1.
  destruct (find p) as [[k m]|] eqn:Hf; [|reflexivity].
  unfold remember. rewrite decide_True; [reflexivity|].
  by eapply record_loop_seen.
Qed.

(** X6: a pattern that is already in the list can be listed once more
    without changing the result. *)
Theorem repeated_pattern_changes_nothing (c : Corpus.t) (ps : list DenylistPattern.t)
    (p : DenylistPattern.t) :
  p ∈ ps → Denylist.check_corpus c (ps ++ [p]) = Denylist.check_corpus c ps.
Proof.
  intros Hp. rewrite !check_corpus_unfold.
  assert (Hfrag : ∀ fragments st,
            Denylist.fragment_pass fragments (ps ++ [p]) st
            = Denylist.fragment_pass fragments ps st).
  { induction fragments as [|f fragments IH]; intros st; [reflexivity|].
    rewrite !fragment_pass_cons, IH. f_equal.
    destruct (negb _); [reflexivity|]. by apply record_loop_absorbs. }
  rewrite Hfrag, !full_text_pass_eq.
  destruct (Py.truthy _); [|reflexivity]. by rewrite record_loop_absorbs.
Qed.

Lemma repeated_pattern_changes_nothing_witness :
  Denylist.check_corpus split_name ([literal_pattern "john"] ++ [literal_pattern "john"])
  = Denylist.check_corpus split_name [literal_pattern "john"].
Proof.
  apply (repeated_pattern_changes_nothing split_name [literal_pattern "john"]).
  left.
Defined.

(** ** When [verify] fails *)

Lemma witnessed_remember k m st : witnessed st → witnessed (remember k m st).
Proof.
  intros Hst. unfold remember. case_decide; [exact Hst|].
  intros k' _. simpl. by destruct (Denylist.matches st).
Qed.

Lemma witnessed_record_loop find ps st :
  witnessed st → witnessed (fold_left (record_hit find) ps st).
Proof.
  revert st. induction ps as [|p ps IH]; intros st Hst; [exact Hst|].
  simpl. apply IH. unfold record_hit.
  destruct (find p) as [[k m]|]; [by apply witnessed_remember|exact Hst].
Qed.

Lemma witnessed_fragment_pass fragments ps st :
  witnessed st → witnessed (Denylist.fragment_pass fragments ps st).
Proof.
  revert st. induction fragments as [|f fragments IH]; intros st Hst; [exact Hst|].
  rewrite fragment_pass_cons. apply IH.
  destruct (negb _); [exact Hst|by apply witnessed_record_loop].
Qed.

Lemma check_corpus_nonempty_iff (c : Corpus.t) (ps : list DenylistPattern.t) :
  Denylist.check_corpus c ps ≠ [] ↔ some_hit c ps.
Proof.
  split.
  - intros Hne. destruct (Denylist.check_corpus c ps) as [|m ms] eqn:Hc; [done|].
    assert (Hm : m ∈ Denylist.check_corpus c ps) by (rewrite Hc; left).
    apply match_origin in Hm
      as [(dp & f & mo & Hdp & Hhit & _)|(dp & mo & Hdp & Hhit & _)];
      exists dp; (split; [exact Hdp|]); [left|right]; eauto.
  - intros (dp & Hdp & [(f & mo & Hhit)|(mo & Hft & Hs)]).
    + destruct (fragment_hit_recorded c ps dp f mo Hdp Hhit) as (m & Hm & _).
      intros Hnil. rewrite Hnil in Hm. by apply elem_of_nil in Hm.
    + rewrite check_corpus_unfold, full_text_pass_eq.
      apply truthy_true in Hft. rewrite Hft.
      assert (Hfind : full_text_find c dp
                = Some (full_text_key dp (Re.group0 mo),
                        spanning_match c dp (Re.group0 mo))).
      { unfold full_text_find. by rewrite Hs. }
      eapply witnessed_record_loop; [|by eapply record_loop_seen].
      apply witnessed_fragment_pass. intros k Hk. by apply elem_of_empty in Hk.
Qed.

(** X7: the FAIL criterion.  [check_corpus] reports something, and [verify]
    on a document that extracts to the corpus returns FAIL, exactly when
    some pattern of the list matches a non-empty fragment text or the
    non-empty full text. *)
Theorem verify_fails_iff_some_hit (c : Corpus.t) (ps : list DenylistPattern.t) :
  (Denylist.check_corpus c ps ≠ [] ↔ some_hit c ps)
  ∧ ∀ fitz_open pdf_path strict ocr_mode,
      Extractors.extract_all fitz_open pdf_path strict ocr_mode = inr c →
      (VerifyResult.exit_code (Core.verify fitz_open pdf_path (Some ps) strict ocr_mode)
       = FAIL ↔ some_hit c ps).
Proof.
  split; [apply check_corpus_nonempty_iff|].
  intros fitz_open pdf_path strict ocr_mode He.
  rewrite (verify_on_success _ _ _ _ _ _ He), <- check_corpus_nonempty_iff. simpl.
  destruct ps as [|p ps].
  - rewrite (check_corpus_nothing c []) by (by left). split; [discriminate|done].
  - destruct (Denylist.check_corpus c (p :: ps)); split; try done; discriminate.
Qed.

(** ** What a literal matches *)













(** ** Loading inline strings and files together *)

Lemma truthy_strip (s : string) :
  Py.truthy s && Py.truthy (Py.strip s) = Py.truthy (Py.strip s).
Proof. by destruct s. Qed.

Lemma load_strings_cons s strings patterns :
  Denylist.load_strings (s :: strings) patterns
  = if Py.truthy s && Py.truthy (Py.strip s) then
      match DenylistPattern.from_string (Py.strip s) false with
      | inl e => inl e
      | inr dp => Denylist.load_strings strings (patterns ++ [dp])
      end
    else Denylist.load_strings strings patterns.
Proof. reflexivity. Qed.

Lemma load_strings_ok strings patterns :
  Denylist.load_strings strings patterns
  = inr (patterns ++ map literal_pattern (inline_phrases strings)).
Proof.
  revert patterns. unfold inline_phrases.
  induction strings as [|s strings IH]; intros patterns.
  - simpl. by rewrite app_nil_r.
  - rewrite load_strings_cons, truthy_strip. simpl map.
    destruct (Py.truthy (Py.strip s)) eqn:Ht.
    + rewrite from_string_literal, IH.
      rewrite filter_cons_True by (by apply truthy_true). simpl.
      by rewrite <- app_assoc.
    + rewrite IH. rewrite filter_cons_False; [reflexivity|].
      apply truthy_false in Ht. intros Hne. by apply Hne.
Qed.

(** X9: inline strings never make [load_denylist] fail.  Without a file the
    result is one literal pattern per inline string that is not blank,
    compiled from the trimmed string, in the order given. *)
Theorem load_denylist_inline_strings (read_lines : string → option (list string))
    (strings : option (list string)) :
  Denylist.load_denylist read_lines strings None
  = inr (map literal_pattern (inline_phrases (default [] strings))).
Proof.
  unfold Denylist.load_denylist, Denylist.load_denylist_with.
  by rewrite load_strings_ok.
Qed.

Lemma load_denylist_both_ok re_compile read_lines strings path lines :
  read_lines path = Some lines → Forall (line_compiles re_compile) lines →
  Denylist.load_denylist_with re_compile read_lines strings (Some path)
  = inr (map literal_pattern (inline_phrases (default [] strings))
         ++ omap (line_pattern re_compile) lines).
Proof.
  intros Hread Hall. unfold Denylist.load_denylist_with.
  rewrite load_strings_ok, Hread. simpl. by rewrite load_lines_ok.
Qed.



Lemma rstrip_cons (c : ascii) (s : string) :
  Py.rstrip (String c s)
  = match Py.rstrip s with
    | EmptyString => if Py.isspace c then EmptyString else String c EmptyString
    | t => String c t
    end.
Proof. reflexivity. Qed.

Lemma rstrip_idempotent (s : string) : Py.rstrip (Py.rstrip s) = Py.rstrip s.
Proof.
  induction s as [|c s IH]; [reflexivity|].
  rewrite rstrip_cons. destruct (Py.rstrip s) as [|d t] eqn:Hr.
  - destruct (Py.isspace c) eqn:Hc; [reflexivity|].
    rewrite rstrip_cons. simpl Py.rstrip. by rewrite Hc.
  - rewrite rstrip_cons, IH. reflexivity.
Qed.

Lemma lstrip_head (s : string) :
  match Py.lstrip s with
  | EmptyString => True
  | String c _ => Py.isspace c = false
  end.
Proof.
  induction s as [|c s IH]; [exact I|]. simpl.
  destruct (Py.isspace c) eqn:Hc; [exact IH|exact Hc].
Qed.

Lemma rstrip_keeps_head (c : ascii) (s : string) :
  Py.isspace c = false → ∃ t, Py.rstrip (String c s) = String c t.
Proof.
  intros Hc. rewrite rstrip_cons. destruct (Py.rstrip s); rewrite ?Hc; eauto.
Qed.

Lemma strip_idempotent (s : string) : Py.strip (Py.strip s) = Py.strip s.
Proof.
  unfold Py.strip. pose proof (lstrip_head s) as Hh.
  destruct (Py.lstrip s) as [|c t] eqn:Hl; [reflexivity|].
  destruct (rstrip_keeps_head c t Hh) as [t' Ht']. rewrite Ht'.
  simpl Py.lstrip. rewrite Hh. rewrite <- Ht'. apply rstrip_idempotent.
Qed.

Lemma load_lines_originals re_compile lines line_num patterns result :
  Denylist.load_lines re_compile lines line_num patterns = inr result →
  Forall (fun p => trimmed_nonempty (DenylistPattern.original p)) patterns →
  Forall (fun p => trimmed_nonempty (DenylistPattern.original p)) result.
Proof.
  revert line_num patterns.
  induction lines as [|raw lines IH]; intros line_num patterns Hload Hpat.
  - by injection Hload as <-.
  - rewrite load_lines_cons in Hload. unfold classify in Hload.
    destruct (negb (Py.truthy (Py.strip raw)) || _) eqn:Hskip; [by eapply IH|].
    apply orb_false_iff in Hskip as [Hne _]. apply negb_false_iff in Hne.
    destruct (Py.startswith "regex:" (Py.strip raw)).
    + destruct (Py.truthy (Py.strip (Py.drop 6 (Py.strip raw)))) eqn:Hr; [|by eapply IH].
      rewrite from_string_with_regex in Hload.
      destruct (re_compile _ _) as [compiled|e|x]; [|discriminate|by destruct x].
      eapply IH; [exact Hload|]. apply Forall_app. split; [exact Hpat|].
      apply Forall_singleton. split; [by apply truthy_true|apply strip_idempotent].
    + rewrite from_string_with_literal in Hload.
      eapply IH; [exact Hload|]. apply Forall_app. split; [exact Hpat|].
      apply Forall_singleton. split; [by apply truthy_true|apply strip_idempotent].
Qed.

(** X11: what the loader never produces, whatever [re.compile] does with
    the regular expressions of the file.  Every pattern [load_denylist]
    returns, from an inline string or from a line of the file, has an
    original string that is not empty and has no white space at either
    end; in particular the pattern that matches everywhere is never
    loaded. *)
Theorem loaded_patterns_are_trimmed_and_nonempty (re_compile : compiler)
    (read_lines : string → option (list string)) (strings : option (list string))
    (file_path : option string) (result : list DenylistPattern.t) :
  Denylist.load_denylist_with re_compile read_lines strings file_path = inr result →
  Forall (fun p => trimmed_nonempty (DenylistPattern.original p)) result.
Proof.
  unfold Denylist.load_denylist_with. rewrite load_strings_ok. simpl.
  assert (Hinline : Forall (fun p => trimmed_nonempty (DenylistPattern.original p))
            (map literal_pattern (inline_phrases (default [] strings)))).
  { apply Forall_fmap, Forall_forall. intros s Hs. unfold inline_phrases in Hs.
    apply list_elem_of_filter in Hs as [Hne Hs].
    apply list_elem_of_fmap in Hs as (s0 & -> & _).
    split; [exact Hne|apply strip_idempotent]. }
  destruct file_path as [path|]; [|by intros [= <-]].
  destruct (read_lines path) as [lines|]; [|discriminate].
  intros Hload. by eapply load_lines_originals.
Qed.

Lemma loaded_patterns_are_trimmed_and_nonempty_witness :
  Forall (fun p => trimmed_nonempty (DenylistPattern.original p))
    (map literal_pattern (inline_phrases ["  Jane Doe "; "  "])
     ++ omap (line_pattern sample_compile) sample_lines).
Proof.
  apply (loaded_patterns_are_trimmed_and_nonempty sample_compile sample_file
           (Some ["  Jane Doe "; "  "]) (Some "deny.txt")).
  apply load_denylist_both_ok; [reflexivity|exact sample_lines_compile].
Defined.

(** ** The result contract of [verify] *)

(** X12: what a consumer of the result can rely on, for every document,
    pattern list and mode: the exit code is FAIL exactly when the match list
    is not empty, it is ERROR exactly when an error message is present, and
    an ERROR result names no surface and reports no OCR. *)
Theorem verify_result_contract fitz_open pdf_path patterns strict ocr_mode :
  let r := Core.verify fitz_open pdf_path patterns strict ocr_mode in
  (VerifyResult.exit_code r = FAIL ↔ VerifyResult.matches r ≠ [])
  ∧ (VerifyResult.exit_code r = ERROR ↔ VerifyResult.error r ≠ None)
  ∧ (VerifyResult.exit_code r = ERROR →
     VerifyResult.surfaces_checked r = [] ∧ VerifyResult.ocr_performed r = false).
Proof.
  intros r. subst r.
  destruct (Extractors.extract_all fitz_open pdf_path strict ocr_mode)
    as [e|corpus] eqn:He.
  - rewrite (verify_on_raise _ _ _ _ _ _ He). simpl.
    repeat split; try done; discriminate.
  - rewrite (verify_on_success _ _ _ _ _ _ He).
    destruct (default [] patterns) as [|p ps].
    + simpl. repeat split; try done; discriminate.
    + destruct (Denylist.check_corpus corpus (p :: ps)); simpl;
        repeat split; try done; discriminate.
Qed.

(** ** What a successful extraction holds *)

Lemma bind_inr {A B : Type} (x : exn + A) (f : A → exn + B) (b : B) :
  Extractors.bind x f = inr b → ∃ a, x = inr a ∧ f a = inr b.
Proof. destruct x as [e|a]; [discriminate|]. intros H. by exists a. Qed.

Lemma surface_inr name out c c' :
  Extractors.surface name out c = inr c' →
  ∃ fs, out = Extractors.Ok fs
        ∧ c' = Extractors.add_fragments fs (Extractors.add_surface name c).
Proof. destruct out as [fs|m]; [|discriminate]. intros [= <-]. by exists fs. Qed.

Lemma content_pages_inr ps n c c' :
  Extractors.content_pages ps n c = inr c' →
  Corpus.surfaces_extracted c' = Corpus.surfaces_extracted c
  ∧ Corpus.ocr_performed c' = Corpus.ocr_performed c
  ∧ (∀ f, f ∈ Corpus.fragments c → f ∈ Corpus.fragments c')
  ∧ (∀ (k : nat) p text,
       ps !! k = Some p → Extractors.get_text p = Extractors.Ok text →
       Py.strip text ≠ "" →
       layout_fragment text (n + Z.of_nat k) ∈ Corpus.fragments c')
  ∧ (∀ (k : nat) p f,
       ps !! k = Some p → f ∈ Extractors.stream_fragments p →
       f ∈ Corpus.fragments c').
Proof.
  revert n c. induction ps as [|p ps IH]; intros n c Hc.
  - injection Hc as <-.
    repeat split; try done; intros k p x Hk; by rewrite lookup_nil in Hk.
  - simpl in Hc. destruct (Extractors.get_text p) as [text|m] eqn:Hg; [|discriminate].
    apply IH in Hc as (Hs & Ho & Hkeep & Hlay & Hstr).
    rewrite truthy_strip in Hs, Ho, Hkeep.
    split; [|split; [|split; [|split]]].
    + rewrite Hs. by destruct (Py.truthy (Py.strip text)).
    + rewrite Ho. by destruct (Py.truthy (Py.strip text)).
    + intros f Hf. apply Hkeep. simpl. apply elem_of_app. left.
      destruct (Py.truthy (Py.strip text)); [|exact Hf].
      simpl. apply elem_of_app. by left.
    + intros [|k] p' text' Hk Hg' Hne.
      * injection Hk as <-. rewrite Hg in Hg'. injection Hg' as <-.
        apply Hkeep. simpl. apply elem_of_app. left.
        apply truthy_true in Hne. rewrite Hne. simpl.
        apply elem_of_app. right. rewrite Z.add_0_r. left.
      * simpl in Hk. replace (n + Z.of_nat (S k))%Z with (n + 1 + Z.of_nat k)%Z by lia.
        by eapply Hlay.
    + intros [|k] p' f Hk Hf.
      * injection Hk as <-. apply Hkeep. simpl. apply elem_of_app. by right.
      * simpl in Hk. by eapply Hstr.
Qed.

(** The steps of a successful [extract_all], taken apart. *)
Lemma extract_all_inr fitz_open pdf_path strict ocr_mode c :
  Extractors.extract_all fitz_open pdf_path strict ocr_mode = inr c →
  ∃ doc c1 c8,
    fitz_open pdf_path = Extractors.Ok doc
    ∧ Extractors.content_pages (Extractors.pages doc) 0
        (Extractors.add_surface "content_streams" Corpus.empty) = inr c1
    ∧ Corpus.surfaces_extracted c8
      = Corpus.surfaces_extracted c1
        ++ [ "annotations"; "form_fields"; "metadata"; "xobjects"; "ocg_layers";
             "embedded"; "all_streams" ]
    ∧ Corpus.ocr_performed c8 = Corpus.ocr_performed c1
    ∧ (∀ f, f ∈ Corpus.fragments c1 → f ∈ Corpus.fragments c8)
    ∧ (if ocr_requested ocr_mode
       then ∃ performed fs,
              Extractors.ocr doc = Extractors.Ok (performed, fs)
              ∧ c = Extractors.add_fragments fs
                      (Extractors.set_ocr_performed performed
                         (Extractors.add_surface "ocr" c8))
       else c = c8).
Proof.
  unfold Extractors.extract_all, Extractors._extract_content_streams.
  destruct (fitz_open pdf_path) as [doc|e]; [|discriminate].
  intros H.
  apply bind_inr in H as (c1 & H1 & H).
  apply bind_inr in H as (c2 & H2 & H). apply surface_inr in H2 as (f2 & _ & ->).
  apply bind_inr in H as (c3 & H3 & H). apply surface_inr in H3 as (f3 & _ & ->).
  apply bind_inr in H as (c4 & H4 & H). apply surface_inr in H4 as (f4 & _ & ->).
  apply bind_inr in H as (c5 & H5 & H). apply surface_inr in H5 as (f5 & _ & ->).
  apply bind_inr in H as (c6 & H6 & H). apply surface_inr in H6 as (f6 & _ & ->).
  apply bind_inr in H as (c7 & H7 & H). apply surface_inr in H7 as (f7 & _ & ->).
  apply bind_inr in H as (c8 & H8 & H). apply surface_inr in H8 as (f8 & _ & E8).
  exists doc, c1, c8. split; [reflexivity|]. split; [exact H1|].
  split; [rewrite E8; simpl; by rewrite <- !app_assoc|].
  split; [by rewrite E8|].
  split; [intros f Hf; rewrite E8; simpl; repeat (apply elem_of_app; left); exact Hf|].
  fold (ocr_requested ocr_mode) in H.
  destruct (ocr_requested ocr_mode); [|by injection H as <-].
  unfold Extractors._extract_ocr in H.
  destruct (Extractors.ocr doc) as [[performed fs]|m]; [|discriminate].
  injection H as <-. by exists performed, fs.
Qed.

(** X13: the surfaces of a successful extraction.  Whatever the document
    holds, the corpus names the eight surfaces in their fixed order,
    followed by [ocr] exactly when the mode is [auto] or [always]; and OCR
    is reported as performed only if it was asked for. *)
Theorem extraction_attempts_every_surface fitz_open pdf_path strict ocr_mode c :
  Extractors.extract_all fitz_open pdf_path strict ocr_mode = inr c →
  Corpus.surfaces_extracted c
  = base_surfaces ++ (if ocr_requested ocr_mode then ["ocr"] else [])
  ∧ (Corpus.ocr_performed c = true → ocr_requested ocr_mode = true).
Proof.
  intros He.
  apply extract_all_inr in He as (doc & c1 & c8 & _ & H1 & Hs & Ho & _ & Hc).
  apply content_pages_inr in H1 as (Hs1 & Ho1 & _).
  rewrite Hs1 in Hs. rewrite Ho1 in Ho. simpl in Hs, Ho.
  destruct (ocr_requested ocr_mode).
  - destruct Hc as (performed & fs & _ & ->). simpl. rewrite Hs. by split.
  - subst c. rewrite Hs, Ho. split; [by rewrite app_nil_r|discriminate].
Qed.

Lemma extraction_attempts_every_surface_witness :
  Corpus.surfaces_extracted
    {| Corpus.fragments :=
         [ Examples.frag "Confidential: Jane Doe, SSN 123-45-6789" "content"
             (Some 0%Z) None ];
       Corpus.surfaces_extracted :=
         [ "content_streams"; "annotations"; "form_fields"; "metadata";
           "xobjects"; "ocg_layers"; "embedded"; "all_streams" ];
       Corpus.ocr_performed := false |}
  = base_surfaces ++ (if ocr_requested "off" then ["ocr"] else []).
Proof.
  apply (extraction_attempts_every_surface Examples.opens_readable "doc.pdf" false "off").
  exact extract_all_readable.
Defined.

(** X14: from the page to the verdict.  When a document extracts
    successfully and the trimmed layout text of its page number [k]
    (counted from 0) holds a non-empty literal phrase of the denylist,
    [verify] returns FAIL and reports a match of that phrase with source
    [content] and page [k]. *)
Theorem phrase_on_page_fails fitz_open pdf_path strict ocr_mode doc c
    (k : nat) (p : Extractors.Page) (text s : string) (ps : list DenylistPattern.t) :
  fitz_open pdf_path = Extractors.Ok doc →
  Extractors.extract_all fitz_open pdf_path strict ocr_mode = inr c →
  Extractors.pages doc !! k = Some p →
  Extractors.get_text p = Extractors.Ok text →
  s ≠ "" → occurs s (Py.strip text) →
  literal_pattern s ∈ ps →
  let r := Core.verify fitz_open pdf_path (Some ps) strict ocr_mode in
  VerifyResult.exit_code r = FAIL
  ∧ ∃ m, m ∈ VerifyResult.matches r
      ∧ Match.pattern m = s
      ∧ Match.source m = "content"
      ∧ Match.page m = Some (Z.of_nat k).
Proof.
  intros Hopen He Hk Hg Hs Hocc Hp r. subst r.
  assert (Hne : Py.strip text ≠ "").
  { intros Hempty. rewrite Hempty in Hocc. by apply occurs_in_empty in Hocc. }
  pose proof He as He'.
  apply extract_all_inr in He' as (doc' & c1 & c8 & Hopen' & H1 & _ & _ & Hkeep & Hc).
  rewrite Hopen in Hopen'. injection Hopen' as <-.
  apply content_pages_inr in H1 as (_ & _ & _ & Hlay & _).
  assert (Hf : layout_fragment text (Z.of_nat k) ∈ Corpus.fragments c).
  { pose proof (Hkeep _ (Hlay k p text Hk Hg Hne)) as H8. simpl in H8.
    destruct (ocr_requested ocr_mode).
    - destruct Hc as (performed & fs & _ & ->). simpl. apply elem_of_app. by left.
    - by subst c. }
  destruct (search_literal_occurs s _ Hocc) as [mo Hmo].
  destruct (fragment_hit_recorded c ps (literal_pattern s)
              (layout_fragment text (Z.of_nat k)) mo Hp)
    as (m & Hm & Hpat & Hsrc & Hpage & _); [by repeat split|].
  rewrite (verify_on_success _ _ _ _ _ _ He). simpl.
  destruct ps as [|p0 ps]; [by apply elem_of_nil in Hp|].
  destruct (Denylist.check_corpus c (p0 :: ps)) as [|m0 ms] eqn:Hcc;
    [by apply elem_of_nil in Hm|].
  split; [reflexivity|]. exists m. simpl. by repeat split.
Qed.

Lemma extract_all_two_pages :
  ∃ c, Extractors.extract_all opens_two_pages "doc.pdf" false "always" = inr c.
Proof. eexists. vm_compute. reflexivity. Qed.

Lemma phrase_on_page_fails_witness :
  let r := Core.verify opens_two_pages "doc.pdf" (Some [literal_pattern "998877"])
             false "always" in
  VerifyResult.exit_code r = FAIL
  ∧ ∃ m, m ∈ VerifyResult.matches r
      ∧ Match.pattern m = "998877"
      ∧ Match.source m = "content"
      ∧ Match.page m = Some 1%Z.
Proof.
  destruct extract_all_two_pages as [c Hc].
  apply (phrase_on_page_fails opens_two_pages "doc.pdf" false "always" two_pages c 1
           {| Extractors.get_text := Extractors.Ok "Account 998877 closed";
              Extractors.stream_fragments := [] |}
           "Account 998877 closed" "998877" [literal_pattern "998877"]).
  - reflexivity.
  - exact Hc.
  - reflexivity.
  - reflexivity.
  - discriminate.
  - exists "Account ", " closed". reflexivity.
  - left.
Defined.

(** ** The tokenizer on a shown string *)

Lemma every_app ok (s t : string) : every ok (s +:+ t) = every ok s && every ok t.
Proof.
  induction s as [|c s IH]; [reflexivity|]. rewrite app_cons. simpl.
  by rewrite IH, andb_assoc.
Qed.

Lemma run_group fl i r st k :
  Re.run fl (Re.Group i r) st k
  = Re.run fl r st (fun st' => k (Re.record_group i st st')).
Proof. reflexivity. Qed.

Lemma run_empty fl st k : Re.run fl Re.Empty st k = k st.
Proof. reflexivity. Qed.

Lemma take_all (s : string) : Py.take (String.length s) s = s.
Proof. rewrite <- (app_empty_r s) at 2. apply take_app_length. Qed.

Lemma consumed_moved (t r : string) st :
  Re.rest st = t +:+ r → Re.consumed st (moved t r st) = t.
Proof.
  intros Hrest. unfold Re.consumed. simpl. rewrite Hrest, length_app_str.
  replace (String.length t + String.length r - String.length r)
    with (String.length t) by lia.
  apply take_app_length.
Qed.

(** The greedy loop over a character class reads a whole run of members: when
    the run ends and what follows the loop succeeds there, that is the
    result of the loop. *)
Lemma class_loop fl neg items (t : string) :
  every (Re.cset_matches fl neg items) t = true →
  ∀ fuel count st r lo k out,
    Re.rest st = t +:+ r →
    stops (Re.cset_matches fl neg items) r →
    String.length t < fuel →
    lo ≤ count + String.length t →
    k (moved t r st) = Some out →
    Re.repeat_loop (Re.run fl (Re.CSet neg items)) lo None k fuel count st = Some out.
Proof.
  induction t as [|a t IH]; intros Ht fuel count st r lo k out Hrest Hr Hfuel Hlo Hk.
  - destruct fuel as [|fuel]; [simpl in Hfuel; lia|]. rewrite repeat_loop_S.
    change (Re.below count None) with true. cbv iota.
    rewrite run_cset. unfold Re.one_char. rewrite Hrest, app_empty_l.
    assert (Hst : moved "" r st = st).
    { destruct st as [p s c]. simpl in Hrest. by subst s. }
    rewrite Hst in Hk. simpl in Hlo.
    assert (Hle : (lo <=? count) = true) by (apply Nat.leb_le; lia).
    destruct r as [|c r]; [by rewrite Hle|].
    simpl in Hr. by rewrite Hr, Hle.
  - simpl in Ht. apply andb_prop in Ht as [Ha Ht].
    destruct fuel as [|fuel]; [simpl in Hfuel; lia|]. rewrite repeat_loop_S.
    change (Re.below count None) with true. cbv iota.
    rewrite run_cset. unfold Re.one_char. rewrite Hrest, app_cons, Ha.
    unfold Re.advance at 1. simpl Re.rest.
    rewrite length_take_drop_lt, orb_true_r.
    rewrite (IH Ht fuel (S count) (Re.advance a (t +:+ r) st) r lo k out); try done.
    + simpl in Hfuel. lia.
    + simpl in Hlo. lia.
Qed.

(** A run of members too short for the lower bound makes the loop fail. *)
Lemma class_loop_short fl neg items (t : string) :
  every (Re.cset_matches fl neg items) t = true →
  ∀ fuel count st r lo k,
    Re.rest st = t +:+ r →
    stops (Re.cset_matches fl neg items) r →
    count + String.length t < lo →
    Re.repeat_loop (Re.run fl (Re.CSet neg items)) lo None k fuel count st = None.
Proof.
  induction t as [|a t IH]; intros Ht fuel count st r lo k Hrest Hr Hlo.
  - destruct fuel as [|fuel]; [reflexivity|]. rewrite repeat_loop_S.
    change (Re.below count None) with true. cbv iota.
    rewrite run_cset. unfold Re.one_char. rewrite Hrest, app_empty_l.
    simpl in Hlo.
    assert (Hle : (lo <=? count) = false) by (apply Nat.leb_gt; lia).
    destruct r as [|c r]; [by rewrite Hle|].
    simpl in Hr. by rewrite Hr, Hle.
  - simpl in Ht. apply andb_prop in Ht as [Ha Ht].
    destruct fuel as [|fuel]; [reflexivity|]. rewrite repeat_loop_S.
    change (Re.below count None) with true. cbv iota.
    rewrite run_cset. unfold Re.one_char. rewrite Hrest, app_cons, Ha.
    unfold Re.advance at 1. simpl Re.rest.
    rewrite length_take_drop_lt, orb_true_r.
    rewrite (IH Ht fuel (S count) (Re.advance a (t +:+ r) st) r lo k); try done.
    + simpl in Hlo.
      assert (Hle : (lo <=? count) = false) by (apply Nat.leb_gt; lia).
      by rewrite Hle.
    + simpl in Hlo. lia.
Qed.

(** The parenthesised-string pattern on an operand without a closing
    parenthesis: the group takes the whole operand. *)
Lemma run_paren fl lo tail (t r : string) st k out :
  Re.ignorecase fl = false →
  every (Re.cset_matches fl true [Re.CChar ")"%char]) t = true →
  lo ≤ String.length t →
  Re.rest st = "(" +:+ t +:+ ")" +:+ r →
  Re.run fl tail
    {| Re.prev := Some ")"%char; Re.rest := r; Re.caps := (1, t) :: Re.caps st |} k
  = Some out →
  Re.run fl (paren_tree lo tail) st k = Some out.
Proof.
  intros Hic Ht Hlo Hrest Hk. unfold paren_tree.
  rewrite run_cat, run_lit. unfold Re.one_char. rewrite Hrest, app_cons, app_empty_l.
  unfold Re.lit_eq at 1. rewrite Hic, Ascii.eqb_refl.
  rewrite run_cat, run_group, run_cat, run_repeat.
  apply (class_loop fl true [Re.CChar ")"%char] t Ht) with (r := ")" +:+ r).
  - reflexivity.
  - rewrite app_cons. unfold stops, Re.cset_matches. simpl.
    unfold Re.lit_eq. by rewrite Hic.
  - simpl Re.rest. rewrite length_app_str. lia.
  - lia.
  - rewrite run_empty, run_cat, run_lit. unfold Re.one_char, Re.record_group.
    simpl Re.rest. rewrite app_cons, app_empty_l.
    unfold Re.lit_eq at 1. rewrite Hic, Ascii.eqb_refl.
    rewrite consumed_moved by reflexivity. exact Hk.
Qed.

Lemma run_paren_short fl lo tail (t r : string) st k :
  Re.ignorecase fl = false →
  every (Re.cset_matches fl true [Re.CChar ")"%char]) t = true →
  String.length t < lo →
  Re.rest st = "(" +:+ t +:+ ")" +:+ r →
  Re.run fl (paren_tree lo tail) st k = None.
Proof.
  intros Hic Ht Hlo Hrest. unfold paren_tree.
  rewrite run_cat, run_lit. unfold Re.one_char. rewrite Hrest, app_cons, app_empty_l.
  unfold Re.lit_eq at 1. rewrite Hic, Ascii.eqb_refl.
  rewrite run_cat, run_group, run_cat, run_repeat.
  apply (class_loop_short fl true [Re.CChar ")"%char] t Ht) with (r := ")" +:+ r).
  - reflexivity.
  - rewrite app_cons. unfold stops, Re.cset_matches. simpl.
    unfold Re.lit_eq. by rewrite Hic.
  - lia.
Qed.

(** A pattern that begins with a literal character finds nothing in a text
    without that character. *)
Lemma search_from_no_first fl a r (s : string) :
  every (fun c => negb (Re.lit_eq fl a c)) s = true →
  ∀ pv, Re.search_from fl (Re.Cat (Re.Lit a) r) pv s = None.
Proof.
  induction s as [|c s IH]; intros Hs pv; rewrite search_from_unfold;
    unfold Re.match_at; cbv zeta; rewrite run_cat, run_lit; unfold Re.one_char;
    simpl Re.rest; [reflexivity|].
  simpl in Hs. apply andb_prop in Hs as [Hc Hs].
  apply negb_true_iff in Hc. rewrite Hc. by apply IH.
Qed.

Lemma finditer_from_S fuel p pv s :
  Re.finditer_from (S fuel) p pv s
  = match Re.search_from (Re.pflags p) (Re.tree p) pv s with
    | None => []
    | Some mt =>
        mt :: match Re.group0 mt, Re.after mt with
              | EmptyString, EmptyString => []
              | EmptyString, String c s' => Re.finditer_from fuel p (Some c) s'
              | _, s' => Re.finditer_from fuel p (Re.after_prev mt) s'
              end
    end.
Proof. reflexivity. Qed.

Lemma finditer_from_no_first fuel fl a r pv (s : string) :
  every (fun c => negb (Re.lit_eq fl a c)) s = true →
  Re.finditer_from fuel {| Re.tree := Re.Cat (Re.Lit a) r; Re.pflags := fl |} pv s = [].
Proof.
  intros Hs. destruct fuel as [|fuel]; [reflexivity|].
  rewrite finditer_from_S. simpl Re.pflags. simpl Re.tree.
  by rewrite search_from_no_first.
Qed.

Lemma plain_char_spec (c : ascii) :
  plain_char c = true →
  Ascii.eqb "(" c = false ∧ Ascii.eqb ")" c = false
  ∧ Ascii.eqb "[" c = false ∧ Ascii.eqb "<" c = false.
Proof.
  unfold plain_char. simpl. rewrite negb_true_iff, !orb_false_iff.
  rewrite !(Ascii.eqb_sym c). tauto.
Qed.

Lemma plain_every (ok : ascii → bool) (t : string) :
  (∀ c, plain_char c = true → ok c = true) →
  plain t = true → every ok t = true.
Proof.
  intros Hok. unfold plain. induction t as [|c t IH]; [done|]. simpl.
  intros [Hc Ht]%andb_prop. by rewrite (Hok c Hc), IH.
Qed.

Lemma plain_not_close (t : string) :
  plain t = true →
  every (Re.cset_matches Re.DOTALL true [Re.CChar ")"%char]) t = true.
Proof.
  apply plain_every. intros c (_ & Hc & _)%plain_char_spec.
  unfold Re.cset_matches, existsb, Re.item_matches, Re.lit_eq.
  change (Re.ignorecase Re.DOTALL) with false. cbv iota. by rewrite Hc.
Qed.

Lemma plain_without (a : ascii) (t : string) :
  a ∈ ["("; "["; "<"]%char →
  plain t = true →
  every (fun c => negb (Re.lit_eq Re.DOTALL a c)) t = true.
Proof.
  intros Ha. apply plain_every. intros c (H1 & _ & H2 & H3)%plain_char_spec.
  unfold Re.lit_eq. change (Re.ignorecase Re.DOTALL) with false. cbv iota.
  apply elem_of_cons in Ha as [->|Ha]; [by rewrite H1|].
  apply elem_of_cons in Ha as [->|Ha]; [by rewrite H2|].
  apply list_elem_of_singleton in Ha as ->. by rewrite H3.
Qed.

Lemma tj_tail_run p c :
  Re.run Re.DOTALL tj_tail {| Re.prev := p; Re.rest := " Tj"; Re.caps := c |} Some
  = Some {| Re.prev := Some "j"%char; Re.rest := ""; Re.caps := c |}.
Proof. vm_compute. reflexivity. Qed.

(** The [Tj] pattern on a shown string: one match, whose group is the
    operand. *)
Lemma finditer_tj (t : string) :
  plain t = true →
  Re.finditer tj_pattern (shown t)
  = [ {| Re.group0 := shown t; Re.groups := [(1, t)];
         Re.after_prev := Some "j"%char; Re.after := "" |} ].
Proof.
  intros Ht. unfold Re.finditer. rewrite finditer_from_S, search_from_unfold.
  unfold Re.match_at. cbv zeta. simpl Re.pflags. simpl Re.tree.
  rewrite (run_paren Re.DOTALL 0 tj_tail t " Tj" _ Some
             {| Re.prev := Some "j"%char; Re.rest := ""; Re.caps := [(1, t)] |});
    [|reflexivity|by apply plain_not_close|lia|reflexivity|apply tj_tail_run].
  unfold Re.consumed. simpl Re.rest. simpl Re.caps. simpl Re.prev.
  simpl String.length at 2. rewrite Nat.sub_0_r, take_all.
  simpl Re.group0. simpl Re.after. simpl Re.after_prev.
  cbv iota.
  destruct (String.length (shown t)) as [|fuel]; [reflexivity|].
  rewrite finditer_from_S. reflexivity.
Qed.

(** The broader pattern on a shown string: the operand when it has three
    characters or more, nothing otherwise. *)
Lemma finditer_all_strings (t : string) :
  plain t = true →
  Re.finditer all_strings_pattern (shown t)
  = if 3 <=? String.length t
    then [ {| Re.group0 := "(" +:+ t +:+ ")"; Re.groups := [(1, t)];
              Re.after_prev := Some ")"%char; Re.after := " Tj" |} ]
    else [].
Proof.
  intros Ht. unfold Re.finditer. rewrite finditer_from_S, search_from_unfold.
  unfold Re.match_at. cbv zeta. simpl Re.pflags. simpl Re.tree.
  destruct (3 <=? String.length t) eqn:Hlen.
  - apply Nat.leb_le in Hlen.
    rewrite (run_paren Re.DOTALL 3 Re.Empty t " Tj" _ Some
               {| Re.prev := Some ")"%char; Re.rest := " Tj"; Re.caps := [(1, t)] |});
      [|reflexivity|by apply plain_not_close|lia|reflexivity|reflexivity].
    unfold Re.consumed. simpl Re.rest. simpl Re.caps. simpl Re.prev.
    assert (Htake : Py.take (String.length (shown t) - String.length " Tj") (shown t)
                    = "(" +:+ t +:+ ")").
    { assert (Hs : shown t = ("(" +:+ t +:+ ")") +:+ " Tj").
      { unfold shown. by rewrite !app_assoc_str. }
      rewrite Hs, length_app_str.
      replace (String.length ("(" +:+ t +:+ ")") + String.length " Tj"
               - String.length " Tj")
        with (String.length ("(" +:+ t +:+ ")")) by lia.
      apply take_app_length. }
    rewrite Htake. simpl Re.group0. simpl Re.after. simpl Re.after_prev.
    rewrite app_cons.
    change all_strings_pattern
      with {| Re.tree := Re.Cat (Re.Lit "(") (Re.Cat
                (Re.Group 1
                   (Re.Cat (Re.Repeat 3 None (Re.CSet true [Re.CChar ")"%char]))
                      Re.Empty))
                (Re.Cat (Re.Lit ")") Re.Empty)); Re.pflags := Re.DOTALL |}.
    by rewrite finditer_from_no_first.
  - apply Nat.leb_gt in Hlen.
    rewrite (run_paren_short Re.DOTALL 3 Re.Empty t " Tj");
      [|reflexivity|by apply plain_not_close|lia|reflexivity].
    unfold shown. rewrite app_cons, app_empty_l. unfold paren_tree.
    rewrite search_from_no_first; [reflexivity|].
    rewrite every_app. rewrite (plain_without "(" t); [reflexivity| |exact Ht].
    apply elem_of_cons. by left.
Qed.

Lemma shown_without (a : ascii) (t : string) :
  a ∈ ["["; "<"]%char →
  plain t = true →
  every (fun c => negb (Re.lit_eq Re.DOTALL a c)) (shown t) = true.
Proof.
  intros Ha Ht. unfold shown. rewrite !every_app.
  rewrite (plain_without a t); [| |exact Ht].
  - apply elem_of_cons in Ha as [->|Ha]; [reflexivity|].
    apply list_elem_of_singleton in Ha as ->. reflexivity.
  - apply elem_of_cons. right. exact Ha.
Qed.

Lemma compile_tj : Re.compile "\(([^)]*)\)\s*Tj" Re.DOTALL = inr tj_pattern.
Proof. vm_compute. reflexivity. Qed.

Lemma compile_all_strings :
  Re.compile "\(([^)]{3,})\)" Re.DOTALL = inr all_strings_pattern.
Proof. vm_compute. reflexivity. Qed.

Lemma compile_tj_array :
  ∃ r, Re.compile "\[((?:[^]]+))\]\s*TJ" Re.DOTALL
       = inr {| Re.tree := Re.Cat (Re.Lit "[") r; Re.pflags := Re.DOTALL |}.
Proof. eexists. vm_compute. reflexivity. Qed.

Lemma compile_string_pattern :
  ∃ p, Re.compile "\(([^)]*)\)" Re.NOFLAGS = inr p.
Proof. eexists. vm_compute. reflexivity. Qed.

Lemma compile_hex :
  ∃ r, Re.compile "<([0-9A-Fa-f\s]+)>\s*T[^a-zA-Z]" Re.DOTALL
       = inr {| Re.tree := Re.Cat (Re.Lit "<") r; Re.pflags := Re.DOTALL |}.
Proof. eexists. vm_compute. reflexivity. Qed.

(** X15: text shown with [Tj] is recovered.  For every operand [t] free of
    parentheses, of [[] and of [<], the tokenizer applied to the content
    stream [(t) Tj] never raises and returns the operand unescaped and
    trimmed (nothing when that is empty); the operand comes out a second
    time, after a space, when it has at least three characters, holds a
    letter and is at least three characters long once unescaped and
    trimmed, because the broader search for parenthesised strings finds it
    again.  No hexadecimal decoding takes part. *)
Theorem shown_text_is_extracted (utf8_decode_ignore : list ascii → string)
    (t : string) :
  plain t = true →
  Tokenizer._extract_text_from_content_stream utf8_decode_ignore (shown t)
  = inr (Py.join " "
           (Tokenizer.keep_stripped (Tokenizer._unescape_pdf_string t) []
            ++ (if looks_like_text t
                then [Py.strip (Tokenizer._unescape_pdf_string t)] else []))).
Proof.
  intros Ht. unfold Tokenizer._extract_text_from_content_stream.
  rewrite compile_tj, compile_all_strings.
  destruct compile_tj_array as [ra ->]. destruct compile_string_pattern as [sp ->].
  destruct compile_hex as [rh ->].
  unfold Tokenizer.tj_pass, Tokenizer.tj_array_pass, Tokenizer.hex_pass,
    Tokenizer.all_strings_pass, Re.finditer.
  rewrite (finditer_from_no_first _ Re.DOTALL "[" ra None (shown t))
    by (apply shown_without; [apply elem_of_cons; by left|exact Ht]).
  rewrite (finditer_from_no_first _ Re.DOTALL "<" rh None (shown t))
    by (apply shown_without;
        [apply elem_of_cons; right; apply elem_of_cons; by left|exact Ht]).
  fold (Re.finditer tj_pattern (shown t)).
  fold (Re.finditer all_strings_pattern (shown t)).
  rewrite finditer_tj, finditer_all_strings by exact Ht.
  unfold looks_like_text.
  cbn [fold_left Re.group Re.lookup_group Re.groups Nat.eqb].
  destruct (3 <=? String.length t);
    cbn [fold_left Re.group Re.lookup_group Re.groups Nat.eqb andb];
    [|by rewrite app_nil_r].
  destruct (Tokenizer.any_alpha t); [|by rewrite app_nil_r].
  destruct (3 <=? String.length (Py.strip (Tokenizer._unescape_pdf_string t))) eqn:Hu;
    [|by rewrite andb_false_r, app_nil_r].
  assert (Py.truthy (Py.strip (Tokenizer._unescape_pdf_string t)) = true) as ->;
    [|reflexivity].
  by destruct (Py.strip (Tokenizer._unescape_pdf_string t)).
Qed.

Lemma shown_text_is_extracted_witness :
  Tokenizer._extract_text_from_content_stream (fun _ => "") (shown "Jane Doe ")
  = inr "Jane Doe Jane Doe".
Proof.
  exact (shown_text_is_extracted (fun _ => "") "Jane Doe " eq_refl).
Defined.

(** ** The command line *)

Lemma worse_error (w c : ExitCode) :
  (if (exit_value w <? exit_value c)%Z then c else w) = ERROR
  ↔ w = ERROR ∨ c = ERROR.
Proof. destruct w, c; simpl; split; (intros [?|?] || intros ?); (done || auto). Qed.

Lemma worse_pass (w c : ExitCode) :
  (if (exit_value w <? exit_value c)%Z then c else w) = PASS
  ↔ w = PASS ∧ c = PASS.
Proof. destruct w, c; simpl; split; (intros [? ?] || intros ?); (done || auto). Qed.

(** The loop of [main] over the results [v f]: every file is reported once,
    in order, and the worst exit code is kept. *)
Lemma collect_loop (v : string → VerifyResult.t) (fs : list string) :
  ∀ rs w,
    let out := fold_left (fun acc f => Cli.collect acc f (v f)) fs (rs, w) in
    out.1 = rs ++ map (fun f => (f, v f)) fs
    ∧ (out.2 = ERROR
       ↔ w = ERROR ∨ ∃ f, f ∈ fs ∧ VerifyResult.exit_code (v f) = ERROR)
    ∧ (out.2 = PASS
       ↔ w = PASS ∧ ∀ f, f ∈ fs → VerifyResult.exit_code (v f) = PASS).
Proof.
  induction fs as [|f fs IH]; intros rs w.
  - simpl. split; [by rewrite app_nil_r|]. split.
    + split; [by left|]. intros [?|(f & Hf & _)]; [done|]. by apply elem_of_nil in Hf.
    + split; [|by intros [? _]]. intros ->. split; [done|].
      intros f Hf. by apply elem_of_nil in Hf.
  - cbn [fold_left]. unfold Cli.collect at 2.
    destruct (IH (rs ++ [(f, v f)])
                (if (exit_value w <? exit_value (VerifyResult.exit_code (v f)))%Z
                 then VerifyResult.exit_code (v f) else w)) as (H1 & H2 & H3).
    cbv zeta. split; [|split].
    + rewrite H1. by rewrite <- app_assoc.
    + rewrite H2, worse_error. split.
      * intros [[Hw|Hc]|(f' & Hf' & Hc)]; [by left| |].
        -- right. exists f. split; [apply elem_of_cons; by left|done].
        -- right. exists f'. split; [apply elem_of_cons; by right|done].
      * intros [Hw|(f' & Hf' & Hc)]; [by left; left|].
        apply elem_of_cons in Hf' as [->|Hf']; [by left; right|].
        right. by exists f'.
    + rewrite H3, worse_pass. split.
      * intros [[Hw Hc] Hall]. split; [done|]. intros f' Hf'.
        apply elem_of_cons in Hf' as [->|Hf']; [done|by apply Hall].
      * intros [Hw Hall]. split; [split; [done|]|].
        -- apply Hall, elem_of_cons. by left.
        -- intros f' Hf'. apply Hall, elem_of_cons. by right.
Qed.

Lemma verify_all_loop fitz_open as_completed a files patterns :
  Cli.verify_all fitz_open as_completed a files patterns
  = fold_left
      (fun acc f =>
         Cli.collect acc f
           (Core.verify fitz_open f (Some patterns) (Cli.strict a) (Cli.ocr a)))
      (if (1 <? Cli.jobs a)%Z && (1 <? length files)
       then as_completed files else files)
      ([], PASS).
Proof. unfold Cli.verify_all. by destruct ((1 <? Cli.jobs a)%Z && (1 <? length files)). Qed.

(** The results and the worst exit code of the verification block. *)
Lemma verify_all_spec fitz_open as_completed a files patterns :
  as_completed files ≡ₚ files →
  let out := Cli.verify_all fitz_open as_completed a files patterns in
  out.1 ≡ₚ map (reported fitz_open a patterns) files
  ∧ (out.2 = ERROR ↔ ∃ f, f ∈ files ∧ verdict fitz_open a patterns f = ERROR)
  ∧ (out.2 = PASS ↔ ∀ f, f ∈ files → verdict fitz_open a patterns f = PASS).
Proof.
  intros Hperm out. subst out. rewrite verify_all_loop.
  set (order := if (1 <? Cli.jobs a)%Z && (1 <? length files)
                then as_completed files else files).
  assert (Horder : order ≡ₚ files).
  { subst order. by destruct ((1 <? Cli.jobs a)%Z && (1 <? length files)). }
  destruct (collect_loop
              (fun f => Core.verify fitz_open f (Some patterns) (Cli.strict a) (Cli.ocr a))
              order [] PASS) as (H1 & H2 & H3).
  cbv zeta in H1, H2, H3. split; [|split].
  - rewrite H1. simpl. by apply Permutation_map.
  - rewrite H2. unfold verdict. split.
    + intros [?|(f & Hf & Hc)]; [done|]. exists f. by rewrite <- Horder.
    + intros (f & Hf & Hc). right. exists f. by rewrite Horder.
  - rewrite H3. unfold verdict. split.
    + intros [_ Hall] f Hf. apply Hall. by rewrite Horder.
    + intros Hall. split; [done|]. intros f Hf. apply Hall. by rewrite <- Horder.
Qed.

Lemma all_pass_or_not (c : string → ExitCode) (fs : list string) :
  (∀ f, f ∈ fs → c f = PASS) ∨ ∃ f, f ∈ fs ∧ c f ≠ PASS.
Proof.
  induction fs as [|f fs [IH|(f' & Hf' & Hc)]].
  - left. intros f Hf. by apply elem_of_nil in Hf.
  - destruct (c f) eqn:Hf.
    + left. intros f' [->|Hf']%elem_of_cons; [done|by apply IH].
    + right. exists f. split; [apply elem_of_cons; by left|by rewrite Hf].
    + right. exists f. split; [apply elem_of_cons; by left|by rewrite Hf].
  - right. exists f'. split; [apply elem_of_cons; by right|done].
Qed.

(** X16: the batch verdict.  Whatever the number of jobs and whatever the
    order in which parallel jobs complete, the verification block of [main]
    reports every file exactly once, with the result [verify] gives it, and
    its exit code is the worst one: ERROR exactly when some file gives ERROR,
    PASS exactly when every file passes, and FAIL exactly when some file
    fails and none gives ERROR. *)
Theorem batch_exit_code_is_the_worst fitz_open as_completed a files patterns :
  as_completed files ≡ₚ files →
  let out := Cli.verify_all fitz_open as_completed a files patterns in
  out.1 ≡ₚ map (reported fitz_open a patterns) files
  ∧ (out.2 = ERROR ↔ ∃ f, f ∈ files ∧ verdict fitz_open a patterns f = ERROR)
  ∧ (out.2 = FAIL
     ↔ (∃ f, f ∈ files ∧ verdict fitz_open a patterns f = FAIL)
       ∧ ∀ f, f ∈ files → verdict fitz_open a patterns f ≠ ERROR)
  ∧ (out.2 = PASS ↔ ∀ f, f ∈ files → verdict fitz_open a patterns f = PASS).
Proof.
  intros Hperm out.
  destruct (verify_all_spec fitz_open as_completed a files patterns Hperm)
    as (H1 & H2 & H3).
  fold out in H1, H2, H3. split; [exact H1|]. split; [exact H2|]. split; [|exact H3].
  split.
  - intros Hfail. split.
    + destruct (all_pass_or_not (verdict fitz_open a patterns) files)
        as [Hall|(f & Hf & Hv)].
      * apply H3 in Hall. congruence.
      * exists f. split; [done|].
        destruct (verdict fitz_open a patterns f) eqn:Hc; [done|done|].
        assert (out.2 = ERROR); [|congruence]. apply H2. by exists f.
    + intros f Hf Hc. assert (out.2 = ERROR); [|congruence]. apply H2. by exists f.
  - intros [(f & Hf & Hc) Hno].
    destruct (out.2) eqn:Ho; [|done|].
    + pose proof (proj1 H3 eq_refl f Hf) as Hp. congruence.
    + destruct (proj1 H2 eq_refl) as (f' & Hf' & Hc'). by destruct (Hno f' Hf').
Qed.

Lemma batch_exit_code_is_the_worst_witness :
  let files := ["a.pdf"; "broken.pdf"; "b.pdf"] in
  let patterns := [literal_pattern "998877"] in
  let out := Cli.verify_all opens_by_name reversed batch_args files patterns in
  out.1 ≡ₚ map (reported opens_by_name batch_args patterns) files
  ∧ (out.2 = ERROR
     ↔ ∃ f, f ∈ files ∧ verdict opens_by_name batch_args patterns f = ERROR)
  ∧ (out.2 = FAIL
     ↔ (∃ f, f ∈ files ∧ verdict opens_by_name batch_args patterns f = FAIL)
       ∧ ∀ f, f ∈ files → verdict opens_by_name batch_args patterns f ≠ ERROR)
  ∧ (out.2 = PASS
     ↔ ∀ f, f ∈ files → verdict opens_by_name batch_args patterns f = PASS).
Proof.
  apply (batch_exit_code_is_the_worst opens_by_name reversed batch_args
           ["a.pdf"; "broken.pdf"; "b.pdf"] [literal_pattern "998877"]).
  unfold reversed. symmetry. apply Permutation_rev.
Defined.

Lemma none_missing (path_exists : string → bool) (fs : list string) :
  List.filter (fun f => negb (path_exists f)) fs = []
  ↔ ∀ f, f ∈ fs → path_exists f = true.
Proof.
  induction fs as [|f fs IH]; simpl.
  - split; [|done]. intros _ f Hf. by apply elem_of_nil in Hf.
  - destruct (path_exists f) eqn:Hf; simpl.
    + rewrite IH. split.
      * intros Hall f' [->|Hf']%elem_of_cons; [done|by apply Hall].
      * intros Hall f' Hf'. apply Hall, elem_of_cons. by right.
    + split; [discriminate|]. intros Hall.
      rewrite (Hall f) in Hf; [discriminate|]. apply elem_of_cons. by left.
Qed.

Lemma exit_value_cases (e : ExitCode) :
  (exit_value e = 0%Z ↔ e = PASS) ∧ (exit_value e = 1%Z ↔ e = FAIL)
  ∧ (exit_value e = 2%Z ↔ e = ERROR).
Proof. destruct e; simpl; repeat split; intros; (done || lia). Qed.



(** [expand_globs] is the concatenation of the expansions. *)
Lemma expand_globs_concat glob_glob (patterns : list string) :
  Cli.expand_globs glob_glob patterns = concat (map (expansion glob_glob) patterns).
Proof.
  unfold Cli.expand_globs.
  assert (H : ∀ acc,
    fold_left (fun files pattern =>
                 if Cli.is_glob pattern then files ++ glob_glob pattern
                 else files ++ [pattern]) patterns acc
    = acc ++ concat (map (expansion glob_glob) patterns)).
  { induction patterns as [|p ps IH]; intros acc; simpl; [by rewrite app_nil_r|].
    rewrite IH. unfold expansion. destruct (Cli.is_glob p); by rewrite <- app_assoc. }
  by rewrite H.
Qed.

(** X18: a path that is not there is an error before anything is read.
    When an argument without any of the characters [*], [?] and [[] names a
    file that does not exist, [main] returns 2, whatever the other files hold
    and whether or not the denylist would load. *)
Theorem missing_literal_path_is_an_error glob_glob path_exists read_lines
    fitz_open as_completed (a : Cli.args) (p : string) :
  p ∈ Cli.files a → Cli.is_glob p = false → path_exists p = false →
  Cli.main glob_glob path_exists read_lines fitz_open as_completed a = inr 2%Z.
Proof.
  intros Hp Hglob Hex. unfold Cli.main.
  assert (Hin : p ∈ Cli.expand_globs glob_glob (Cli.files a)).
  { rewrite expand_globs_concat. apply list_elem_of_In, in_concat.
    exists (expansion glob_glob p). split.
    - apply in_map, list_elem_of_In, Hp.
    - unfold expansion. rewrite Hglob. by left. }
  destruct (Cli.expand_globs glob_glob (Cli.files a)) as [|f fs] eqn:Hfiles;
    [reflexivity|].
  destruct (List.filter (λ f, negb (path_exists f)) (f :: fs)) as [|m ms] eqn:Hmiss;
    [|reflexivity].
  pose proof (proj1 (none_missing path_exists (f :: fs)) Hmiss p Hin). congruence.
Qed.

Lemma missing_literal_path_is_an_error_witness :
  Cli.main no_glob all_but_gone no_file opens_by_name reversed
    {| Cli.files := ["a.pdf"; "gone.pdf"];
       Cli.deny_strings := None;
       Cli.denyfile := Some "missing-denylist.txt";
       Cli.strict := false; Cli.ocr := "off";
       Cli.json_output := false; Cli.jobs := 1 |}
  = inr 2%Z.
Proof.
  apply (missing_literal_path_is_an_error no_glob all_but_gone no_file opens_by_name
           reversed _ "gone.pdf").
  - apply elem_of_cons. right. apply elem_of_cons. by left.
  - reflexivity.
  - reflexivity.
Defined.

(** ** The report *)

Lemma count_from (p : VerifyResult.t → bool) (results : list (string * VerifyResult.t)) :
  ∀ n, fold_left (fun n '(_, r) => if p r then n + 1 else n) results n
       = n + length (List.filter (fun x => p x.2) results).
Proof.
  induction results as [|[f r] rs IH]; intros n; simpl; [lia|].
  rewrite IH. destruct (p r); simpl; lia.
Qed.

Lemma count_spec (p : VerifyResult.t → bool) (results : list (string * VerifyResult.t)) :
  Report.count p results = length (List.filter (fun x => p x.2) results).
Proof. unfold Report.count. by rewrite count_from. Qed.

Lemma count_zero (p : VerifyResult.t → bool) (results : list (string * VerifyResult.t)) :
  Report.count p results = 0 ↔ ∀ x, x ∈ results → p x.2 = false.
Proof.
  rewrite count_spec. induction results as [|x rs IH]; simpl.
  - split; [|done]. intros _ x Hx. by apply elem_of_nil in Hx.
  - destruct (p x.2) eqn:Hx; simpl.
    + split; [discriminate|]. intros Hall.
      rewrite (Hall x) in Hx; [discriminate|]. apply elem_of_cons. by left.
    + rewrite IH. split.
      * intros Hall y [->|Hy]%elem_of_cons; [done|by apply Hall].
      * intros Hall y Hy. apply Hall, elem_of_cons. by right.
Qed.

Lemma counts_partition (results : list (string * VerifyResult.t)) :
  Report.count Report.passed results + Report.count Report.failed results
  + Report.count Report.errored results = length results.
Proof.
  rewrite !count_spec. induction results as [|[f r] rs IH]; [reflexivity|].
  simpl. unfold Report.passed, Report.failed, Report.errored in *.
  destruct (VerifyResult.exit_code r); simpl in *; lia.
Qed.

(** X19: the summary and the exit code tell the same story.  The counts of
    the report add up to the number of files verified, and the exit code of
    the batch is 0 exactly when the report counts no failure and no error, 2
    exactly when it counts an error, and 1 exactly when it counts a failure
    and no error. *)
Theorem summary_agrees_with_exit_code fitz_open as_completed a files patterns :
  as_completed files ≡ₚ files →
  let out := Cli.verify_all fitz_open as_completed a files patterns in
  let s := Report.format_json_summary out.1 in
  Report.total s = length files
  ∧ Report.n_passed s + Report.n_failed s + Report.n_errors s = Report.total s
  ∧ (exit_value out.2 = 0%Z ↔ Report.n_failed s = 0 ∧ Report.n_errors s = 0)
  ∧ (exit_value out.2 = 2%Z ↔ 0 < Report.n_errors s)
  ∧ (exit_value out.2 = 1%Z ↔ 0 < Report.n_failed s ∧ Report.n_errors s = 0).
Proof.
  intros Hperm out s.
  destruct (verify_all_spec fitz_open as_completed a files patterns Hperm)
    as (H1 & H2 & H3).
  fold out in H1, H2, H3.
  assert (Hmem : ∀ x, x ∈ out.1 ↔ ∃ f, f ∈ files ∧ x = reported fitz_open a patterns f).
  { intros x. rewrite H1. rewrite list_elem_of_In, in_map_iff. split.
    - intros (f & <- & Hf). exists f. by rewrite list_elem_of_In.
    - intros (f & Hf & ->). exists f. by rewrite <- list_elem_of_In. }
  assert (Herr : Report.n_errors s = 0 ↔ out.2 ≠ ERROR).
  { unfold s. simpl. rewrite count_zero, H2. split.
    - intros Hall (f & Hf & Hc).
      specialize (Hall (reported fitz_open a patterns f)).
      unfold Report.errored, reported in Hall. simpl in Hall.
      unfold verdict in Hc. rewrite Hc in Hall.
      assert (true = false); [|done]. apply Hall, Hmem. by exists f.
    - intros Hno x (f & Hf & ->)%Hmem. unfold Report.errored, reported. simpl.
      destruct (VerifyResult.exit_code _) eqn:Hc; try done.
      destruct Hno. by exists f. }
  assert (Hpass : Report.n_failed s = 0 ∧ Report.n_errors s = 0 ↔ out.2 = PASS).
  { rewrite Herr. unfold s. simpl. rewrite count_zero, H3. split.
    - intros [Hall Hne] f Hf.
      specialize (Hall (reported fitz_open a patterns f)).
      unfold Report.failed, reported in Hall. simpl in Hall. unfold verdict.
      destruct (VerifyResult.exit_code _) eqn:Hc; [done| |].
      + assert (true = false); [|done]. apply Hall, Hmem. by exists f.
      + destruct Hne. apply H2. by exists f.
    - intros Hall. split.
      + intros x (f & Hf & ->)%Hmem. unfold Report.failed, reported. simpl.
        specialize (Hall f Hf). unfold verdict in Hall. by rewrite Hall.
      + intros He. apply H2 in He as (f & Hf & Hc). rewrite (Hall f Hf) in Hc. done. }
  destruct (exit_value_cases out.2) as (Hv0 & Hv1 & Hv2).
  split; [|split; [|split; [|split]]].
  - unfold s. simpl. rewrite H1. by rewrite length_map.
  - unfold s. simpl. apply counts_partition.
  - rewrite Hv0. by rewrite Hpass.
  - rewrite Hv2. split.
    + intros He. assert (Hn : Report.n_errors s ≠ 0); [|lia].
      rewrite Herr. intros Hne. by apply Hne.
    + intros Hpos. destruct (out.2) eqn:Ho; [| |done].
      * assert (Report.n_errors s = 0); [|lia]. by apply Herr.
      * assert (Report.n_errors s = 0); [|lia]. by apply Herr.
  - rewrite Hv1. split.
    + intros Hf.
      assert (Hz : Report.n_errors s = 0) by (apply Herr; congruence).
      assert (Hn : ¬ (Report.n_failed s = 0 ∧ Report.n_errors s = 0))
        by (rewrite Hpass; congruence).
      split; [|exact Hz]. lia.
    + intros [Hpos Hz]. destruct (out.2) eqn:Ho; [|done|].
      * assert (Report.n_failed s = 0 ∧ Report.n_errors s = 0) as [? _]; [|lia].
        by apply Hpass.
      * by apply Herr in Hz.
Qed.

Lemma summary_agrees_with_exit_code_witness :
  let files := ["a.pdf"; "broken.pdf"; "b.pdf"] in
  let out := Cli.verify_all opens_by_name reversed batch_args files
               [literal_pattern "998877"] in
  let s := Report.format_json_summary out.1 in
  Report.total s = length files
  ∧ Report.n_passed s + Report.n_failed s + Report.n_errors s = Report.total s
  ∧ (exit_value out.2 = 0%Z ↔ Report.n_failed s = 0 ∧ Report.n_errors s = 0)
  ∧ (exit_value out.2 = 2%Z ↔ 0 < Report.n_errors s)
  ∧ (exit_value out.2 = 1%Z ↔ 0 < Report.n_failed s ∧ Report.n_errors s = 0).
Proof.
  apply (summary_agrees_with_exit_code opens_by_name reversed batch_args
           ["a.pdf"; "broken.pdf"; "b.pdf"] [literal_pattern "998877"]).
  unfold reversed. symmetry. apply Permutation_rev.
Defined.

(** ** Unescaping *)

Lemma replace_without (a : ascii) (old_tail new s : string) :
  every (fun c => negb (Ascii.eqb a c)) s = true →
  Py.replace (String a old_tail) new s = s.
Proof.
  unfold Py.replace. induction s as [|c s IH]; [reflexivity|].
  simpl every. intros [Hc Hs]%andb_prop. rewrite replace_from_0, prefix_cons.
  destruct (ascii_dec a c) as [->|_].
  - by rewrite Ascii.eqb_refl in Hc.
  - by rewrite IH.
Qed.

Lemma replace_from_length (old new : string) :
  String.length new ≤ String.length old → old ≠ "" →
  ∀ s skip, skip ≤ String.length s →
    String.length (Py.replace_from old new skip s) + skip ≤ String.length s.
Proof.
  intros Hlen Hold. induction s as [|c s IH]; intros skip Hskip.
  - simpl in Hskip. destruct skip; [simpl; lia|lia].
  - destruct skip as [|skip].
    + rewrite replace_from_0.
      destruct (String.prefix old (String c s)) eqn:Hp.
      * apply prefix_spec in Hp as [post Hp].
        assert (Hl : String.length (String c s)
                     = String.length old + String.length post)
          by (by rewrite Hp, length_app_str).
        simpl in Hl. rewrite length_app_str.
        assert (Ho : 1 ≤ String.length old) by (destruct old; [done|simpl; lia]).
        specialize (IH (String.length old - 1)). simpl. lia.
      * specialize (IH 0). simpl. lia.
    + change (Py.replace_from old new (S skip) (String c s))
        with (Py.replace_from old new skip s).
      specialize (IH skip). simpl in *. lia.
Qed.

Lemma replace_length (old new s : string) :
  String.length new ≤ String.length old → old ≠ "" →
  String.length (Py.replace old new s) ≤ String.length s.
Proof.
  intros Hlen Hold. unfold Py.replace.
  pose proof (replace_from_length old new Hlen Hold s 0). lia.
Qed.

(** X20: unescaping a PDF string never makes it longer, and a string
    without a backslash comes back unchanged. *)
Theorem unescape_keeps_plain_strings (s : string) :
  String.length (Tokenizer._unescape_pdf_string s) ≤ String.length s
  ∧ (no_backslash s = true → Tokenizer._unescape_pdf_string s = s).
Proof.
  unfold Tokenizer._unescape_pdf_string. cbn [fold_left]. split.
  - do 6 (etransitivity; [apply replace_length; [compute; lia | discriminate] | ]).
    done.
  - intros Hs. unfold no_backslash in Hs.
    by rewrite !(replace_without "\" _ _ s Hs).
Qed.

Lemma unescape_keeps_plain_strings_witness :
  Tokenizer._unescape_pdf_string "Jane (Doe) 100%" = "Jane (Doe) 100%".
Proof.
  exact (proj2 (unescape_keeps_plain_strings "Jane (Doe) 100%") eq_refl).
Defined.
